(** * TodoList: the task store of [src/App.tsx]

    A shallow embedding of the state transitions of the React component
    [App] (src/App.tsx), of the Break Down button of [TodoItem]
    (src/components/TodoItem.tsx) and of [generateSubtasks]
    (src/services/geminiService.ts), together with the properties of the
    task/subtask state machine.

    React state is modelled by explicit state passing: every handler is a
    function from the component state to the component state, and a
    functional update [setTodos(prev => f prev)] is the application of [f]
    to the [todos] field. *)

From Stdlib Require Import Ascii String.
From stdpp Require Import base decidable option list strings.

Open Scope string_scope.

(** ** Data model (types.ts) *)

(** [interface Subtask { id: string; text: string; completed: boolean }] *)
Module Subtask.

Record t : Type := mk {
  id : string;
  text : string;
  completed : bool
}.

(** [{ ...s, completed: b }] *)
Definition with_completed (b : bool) (s : t) : t :=
  {| id := id s; text := text s; completed := b |}.

End Subtask.

(** [interface Todo]; the optional field [isGenerating?: boolean] is absent
    ([None]) until [handleGenerateSubtasks] writes it. *)
Module Todo.

Record t : Type := mk {
  id : string;
  text : string;
  completed : bool;
  isExpanded : bool;
  subtasks : list Subtask.t;
  isGenerating : option bool
}.

(** [{ ...t, isGenerating: b }] *)
Definition with_isGenerating (b : bool) (t0 : t) : t :=
  {| id := id t0; text := text t0; completed := completed t0;
     isExpanded := isExpanded t0; subtasks := subtasks t0;
     isGenerating := Some b |}.

(** [{ ...t, isExpanded: b }] *)
Definition with_isExpanded (b : bool) (t0 : t) : t :=
  {| id := id t0; text := text t0; completed := completed t0;
     isExpanded := b; subtasks := subtasks t0;
     isGenerating := isGenerating t0 |}.

(** [{ ...t, completed: c, subtasks: ss }] *)
Definition with_completed_subtasks (c : bool) (ss : list Subtask.t) (t0 : t) : t :=
  {| id := id t0; text := text t0; completed := c;
     isExpanded := isExpanded t0; subtasks := ss;
     isGenerating := isGenerating t0 |}.

(** [{ ...t, isGenerating: false, isExpanded: true, subtasks: ss }] *)
Definition resolved (ss : list Subtask.t) (t0 : t) : t :=
  {| id := id t0; text := text t0; completed := completed t0;
     isExpanded := true; subtasks := ss;
     isGenerating := Some false |}.

End Todo.

(** [enum FilterType] *)
Inductive FilterType : Type := ALL | ACTIVE | COMPLETED.

(** JavaScript truthiness of the optional boolean [todo.isGenerating]:
    [undefined] and [false] are falsy. *)
Definition truthy (b : option bool) : bool :=
  match b with
  | Some true => true
  | _ => false
  end.

(** ** String.prototype.trim

    A string is a sequence of code units below 256, one [ascii] each;
    strings with larger code units are outside the model.  Among the code
    units below 256, [trim] removes the white space and line terminator
    code points TAB (9), LF (10), VT (11), FF (12), CR (13), SPACE (32) and
    NO-BREAK SPACE (U+00A0, 160). *)

Definition isWhiteSpace (c : ascii) : bool :=
  let n := nat_of_ascii c in
  ((9 <=? n) && (n <=? 13) || (n =? 32) || (n =? 160))%nat.

Fixpoint trimStart (s : string) : string :=
  match s with
  | EmptyString => EmptyString
  | String c r => if isWhiteSpace c then trimStart r else s
  end.

Fixpoint trimEnd (s : string) : string :=
  match s with
  | EmptyString => EmptyString
  | String c r =>
      match trimEnd r with
      | EmptyString => if isWhiteSpace c then EmptyString else String c EmptyString
      | r' => String c r'
      end
  end.

Definition trim (s : string) : string := trimEnd (trimStart s).

(** ** Component state of [App] *)

Record AppState : Type := mkApp {
  todos : list Todo.t;
  inputText : string;
  filter : FilterType;
  error : option string
}.

Definition setTodos (f : list Todo.t → list Todo.t) (st : AppState) : AppState :=
  {| todos := f (todos st); inputText := inputText st;
     filter := filter st; error := error st |}.

Definition setInputText (s : string) (st : AppState) : AppState :=
  {| todos := todos st; inputText := s; filter := filter st; error := error st |}.

Definition setFilter (f : FilterType) (st : AppState) : AppState :=
  {| todos := todos st; inputText := inputText st; filter := f; error := error st |}.

Definition setError (e : option string) (st : AppState) : AppState :=
  {| todos := todos st; inputText := inputText st; filter := filter st; error := e |}.

(** ** Handlers of [App] *)

(** [handleAddTodo]; [uuid] is the value returned by [crypto.randomUUID()].
    The empty string is the only falsy string, so [!inputText.trim()] holds
    exactly when the trimmed text is empty. *)
Definition newTodo (uuid : string) (input : string) : Todo.t :=
  {| Todo.id := uuid; Todo.text := trim input; Todo.completed := false;
     Todo.isExpanded := false; Todo.subtasks := []; Todo.isGenerating := None |}.

Definition handleAddTodo (uuid : string) (st : AppState) : AppState :=
  if decide (trim (inputText st) = "") then st
  else setInputText "" (setTodos (λ prev, newTodo uuid (inputText st) :: prev) st).

(** [handleToggleTodo] *)
Definition toggleTodo (i : string) (todo : Todo.t) : Todo.t :=
  if decide (Todo.id todo = i) then
    let newCompleted := negb (Todo.completed todo) in
    let newSubtasks :=
      if newCompleted
      then Subtask.with_completed true <$> Todo.subtasks todo
      else Todo.subtasks todo in
    Todo.with_completed_subtasks newCompleted newSubtasks todo
  else todo.

Definition handleToggleTodo (i : string) : AppState → AppState :=
  setTodos (λ prev, toggleTodo i <$> prev).

(** [handleDeleteTodo] *)
Definition handleDeleteTodo (i : string) : AppState → AppState :=
  setTodos (λ prev, List.filter (λ todo, bool_decide (Todo.id todo ≠ i)) prev).

(** [handleToggleSubtask] *)
Definition toggleSubtask (subtaskId : string) (s : Subtask.t) : Subtask.t :=
  if decide (Subtask.id s = subtaskId)
  then Subtask.with_completed (negb (Subtask.completed s)) s
  else s.

Definition toggleSubtaskIn (todoId subtaskId : string) (todo : Todo.t) : Todo.t :=
  if decide (Todo.id todo ≠ todoId) then todo
  else
    let newSubtasks := toggleSubtask subtaskId <$> Todo.subtasks todo in
    let allSubComplete := forallb Subtask.completed newSubtasks in
    Todo.with_completed_subtasks
      (allSubComplete && (0 <? length newSubtasks)%nat) newSubtasks todo.

Definition handleToggleSubtask (todoId subtaskId : string) : AppState → AppState :=
  setTodos (λ prev, toggleSubtaskIn todoId subtaskId <$> prev).

(** [handleExpand] *)
Definition handleExpand (i : string) : AppState → AppState :=
  setTodos (λ prev,
    (λ t, if decide (Todo.id t = i)
          then Todo.with_isExpanded (negb (Todo.isExpanded t)) t else t) <$> prev).

(** [handleClearCompleted] *)
Definition handleClearCompleted : AppState → AppState :=
  setTodos (λ prev, List.filter (λ t, negb (Todo.completed t)) prev).

(** [filteredTodos] *)
Definition filteredTodos (st : AppState) : list Todo.t :=
  List.filter (λ todo,
    match filter st with
    | ACTIVE => negb (Todo.completed todo)
    | COMPLETED => Todo.completed todo
    | ALL => true
    end) (todos st).

(** ** The decomposition service (src/services/geminiService.ts) *)

(** How a promise settles. *)
Inductive Settled (A : Type) : Type :=
  | Fulfilled (value : A)
  | Rejected.
Arguments Fulfilled {A} value.
Arguments Rejected {A}.

(** What [await ai.models.generateContent(...)] yields: the call throws, or
    it returns a response whose [text] may be [undefined]. *)
Inductive GenerateContent : Type :=
  | Thrown
  | Response (text : option string).

(** What [JSON.parse(jsonText)] yields, at the type [string[]] that
    [generateSubtasks] declares and the [responseSchema] requests: a
    [SyntaxError], a value that is not an array, or an array of strings. *)
Inductive ParsedSubtasks : Type :=
  | SyntaxError
  | NotArray
  | ArrayOf (items : list string).

Section Service.

(** [JSON.parse] is the host's; it is a parameter of the model. *)
Variable JSON_parse : string → ParsedSubtasks.

(** [generateSubtasks]; [apiKey] is [process.env.API_KEY || ''] and [reply]
    the outcome of the request to the model. *)
Definition generateSubtasks (apiKey : string) (reply : GenerateContent)
    (taskText : string) : Settled (list string) :=
  if decide (apiKey = "") then
    Fulfilled [ "Research " ++ taskText;
                "Draft outline for " ++ taskText;
                "Review and finalize " ++ taskText ]
  else
    match reply with
    | Thrown => Rejected
    | Response None => Fulfilled []
    | Response (Some jsonText) =>
        if decide (jsonText = "") then Fulfilled []
        else
          match JSON_parse jsonText with
          | SyntaxError => Rejected
          | NotArray => Fulfilled []
          | ArrayOf subtasks => Fulfilled subtasks
          end
    end.

End Service.

(** ** [handleGenerateSubtasks] (src/App.tsx)

    The handler is asynchronous.  Its body up to the [await] runs when it is
    called ([handleGenerateSubtasks_begin]); the rest runs when the promise
    of [generateSubtasks] settles ([handleGenerateSubtasks_settle]).  The
    calls to the service that have not settled yet are kept beside the
    component state. *)

Record World : Type := mkWorld {
  app : AppState;
  inflight : list (string * string)   (* (id, text) of each awaited call *)
}.

Definition failedMessage : string :=
  "Failed to generate subtasks. Please try again or check your API key.".

(** Up to the [await]: the optimistic update, [setError(null)], and the call
    of [generateSubtasks(text)]. *)
Definition handleGenerateSubtasks_begin (i text : string) (w : World) : World :=
  {| app :=
       setError None
         (setTodos (λ prev,
            (λ t, if decide (Todo.id t = i)
                  then Todo.with_isGenerating true t else t) <$> prev) (app w));
     inflight := inflight w ++ [(i, text)] |}.

(** [subtaskTexts.map(st => ({ id: crypto.randomUUID(), text: st,
    completed: false }))]; [rand k] is the value of the [k]-th call of
    [crypto.randomUUID()]. *)
Definition newSubtasks (rand : nat → string) (subtaskTexts : list string)
    : list Subtask.t :=
  imap (λ k st, {| Subtask.id := rand k; Subtask.text := st;
                   Subtask.completed := false |}) subtaskTexts.

(** After the [await]: the [try] branch when the promise is fulfilled, the
    [catch] branch when it is rejected. *)
Definition handleGenerateSubtasks_settle (rand : nat → string) (i : string)
    (outcome : Settled (list string)) (st : AppState) : AppState :=
  match outcome with
  | Fulfilled subtaskTexts =>
      let ss := newSubtasks rand subtaskTexts in
      setTodos (λ prev,
        (λ t, if decide (Todo.id t ≠ i) then t else Todo.resolved ss t) <$> prev) st
  | Rejected =>
      setTodos (λ prev,
        (λ t, if decide (Todo.id t = i)
              then Todo.with_isGenerating false t else t) <$> prev)
        (setError (Some failedMessage) st)
  end.

(** The [k]-th awaited call settles. *)
Definition settle (rand : nat → string) (k : nat)
    (outcome : Settled (list string)) (w : World) : World :=
  match inflight w !! k with
  | Some (i, _) =>
      {| app := handleGenerateSubtasks_settle rand i outcome (app w);
         inflight := delete k (inflight w) |}
  | None => w
  end.

(** ** The Break Down button (src/components/TodoItem.tsx)

    The button is rendered when
    [todo.subtasks.length === 0 && !todo.completed], carries
    [disabled={todo.isGenerating}], and its [onClick] calls
    [onGenerateSubtasks(todo.id, todo.text)].  A disabled button does not
    dispatch clicks. *)

Definition breakDownRendered (todo : Todo.t) : bool :=
  (length (Todo.subtasks todo) =? 0)%nat && negb (Todo.completed todo).

Definition breakDownDisabled (todo : Todo.t) : bool :=
  truthy (Todo.isGenerating todo).

Definition clickBreakDown (todo : Todo.t) (w : World) : World :=
  if breakDownRendered todo && negb (breakDownDisabled todo)
  then handleGenerateSubtasks_begin (Todo.id todo) (Todo.text todo) w
  else w.

(** ** The initial value of [todos] (src/App.tsx, [useState] initializer) *)

Section Restore.

(** [JSON.parse(saved)] at the declared type [Todo[]]; [None] stands for a
    thrown [SyntaxError]. *)
Variable JSON_parse : string → option (list Todo.t).

(** [saved] is [localStorage.getItem('gemini-todos')], [None] for [null].
    [null] and the empty string are falsy. *)
Definition initialTodos (saved : option string) : list Todo.t :=
  match saved with
  | None => []
  | Some s =>
      if decide (s = "") then []
      else
        match JSON_parse s with
        | Some v => v
        | None => []
        end
  end.

End Restore.

(** A parser that knows finitely many texts and rejects every other one. *)
Fixpoint parseTable {A : Type} (known : list (string * A)) (s : string) : option A :=
  match known with
  | [] => None
  | (k, v) :: rest => if decide (k = s) then Some v else parseTable rest s
  end.

(** The only channel through which [App] reports a failure is its [error]
    state (the Error Toast); the handlers return nothing. *)
Definition reportsFailure (st : AppState) : Prop := error st ≠ None.

(** ** Sample values used by the examples *)

Definition sampleSub (i : string) (c : bool) : Subtask.t :=
  {| Subtask.id := i; Subtask.text := "step " ++ i; Subtask.completed := c |}.

Definition sampleTodo (i : string) (c : bool) (ss : list Subtask.t)
    (g : option bool) : Todo.t :=
  {| Todo.id := i; Todo.text := "Plan trip"; Todo.completed := c;
     Todo.isExpanded := false; Todo.subtasks := ss; Todo.isGenerating := g |}.

Definition sampleState (l : list Todo.t) : AppState :=
  {| todos := l; inputText := ""; filter := ALL; error := None |}.

Definition sampleRand (k : nat) : string :=
  "sub-" ++ String (ascii_of_nat (48 + k)) "".

(** A NO-BREAK SPACE (U+00A0). *)
Definition nbsp : string := String (ascii_of_nat 160) EmptyString.

Definition quoted (s : string) : string :=
  String (ascii_of_nat 34) s ++ String (ascii_of_nat 34) EmptyString.

Definition sampleParse (s : string) : ParsedSubtasks :=
  default SyntaxError
    (parseTable [ ("[]", ArrayOf []); ("{}", NotArray);
                  ("[" ++ quoted "Book flights" ++ "]", ArrayOf ["Book flights"]) ] s).

(** ** Runs of the application

    The events that reach [App]: the user's actions on what is rendered, and
    the settlement of an awaited call to the service. *)

Inductive Event : Type :=
  | Submit (uuid : string)                 (* form onSubmit; uuid from crypto.randomUUID() *)
  | ChangeInput (s : string)               (* input onChange *)
  | ClickToggle (i : string)
  | ClickDelete (i : string)
  | ClickSubtask (todoId subtaskId : string)
  | ClickExpand (i : string)
  | ClickBreakDown (todo : Todo.t)
  | ClickClearCompleted
  | ClickFilter (f : FilterType)
  | DismissError                           (* the toast's button: setError(null) *)
  | Settles (k : nat) (outcome : Settled (list string)) (rand : nat → string).

Definition onApp (f : AppState → AppState) (w : World) : World :=
  {| app := f (app w); inflight := inflight w |}.

Definition fire (e : Event) (w : World) : World :=
  match e with
  | Submit uuid => onApp (handleAddTodo uuid) w
  | ChangeInput s => onApp (setInputText s) w
  | ClickToggle i => onApp (handleToggleTodo i) w
  | ClickDelete i => onApp (handleDeleteTodo i) w
  | ClickSubtask todoId subtaskId => onApp (handleToggleSubtask todoId subtaskId) w
  | ClickExpand i => onApp (handleExpand i) w
  | ClickBreakDown todo => clickBreakDown todo w
  | ClickClearCompleted => onApp handleClearCompleted w
  | ClickFilter f => onApp (setFilter f) w
  | DismissError => onApp (setError None) w
  | Settles k outcome rand => settle rand k outcome w
  end.

(** When an event can happen: a Break Down button belongs to a rendered
    task, a settlement to an awaited call; [crypto.randomUUID()] is assumed
    not to return the id of a task that has a call in flight. *)
Definition enabled (e : Event) (w : World) : Prop :=
  match e with
  | Submit uuid => uuid ∉ (fst <$> inflight w)
  | ClickBreakDown todo => todo ∈ filteredTodos (app w)
  | Settles k _ _ => (k < length (inflight w))%nat
  | _ => True
  end.

Inductive reachable (w0 : World) : World → Prop :=
  | reach_init : reachable w0 w0
  | reach_step (w : World) (e : Event) :
      reachable w0 w → enabled e w → reachable w0 (fire e w).

(** Every task that has a call in flight is marked as generating, and no id
    has two calls in flight. *)
Definition inflight_marked (w : World) : Prop :=
  ∀ i t, i ∈ (fst <$> inflight w) → t ∈ todos (app w) → Todo.id t = i →
         Todo.isGenerating t = Some true.

Definition one_in_flight (w : World) : Prop :=
  NoDup (fst <$> inflight w).

(** [l'] holds only tasks whose id and [isGenerating] field are those of a
    task of [l]. *)
Definition keeps_marks (l l' : list Todo.t) : Prop :=
  ∀ t', t' ∈ l' →
    ∃ t, t ∈ l ∧ Todo.id t' = Todo.id t
             ∧ Todo.isGenerating t' = Todo.isGenerating t.

(** ** What [App] and [TodoItem] derive from the state *)

(** [todos.filter(t => !t.completed).length], the "items left" counter. *)
Definition itemsLeft (st : AppState) : nat :=
  length (List.filter (λ t, negb (Todo.completed t)) (todos st)).

(** [todos.some(t => t.completed)]: whether the "Clear completed tasks"
    footer is rendered. *)
Definition footerRendered (st : AppState) : bool :=
  existsb Todo.completed (todos st).

(** [disabled={!inputText.trim()}] of the Add button. *)
Definition addDisabled (st : AppState) : bool :=
  bool_decide (trim (inputText st) = "").

(** [TodoItem]: [totalItems] and [completedItems], the two integers the
    progress bar is computed from. *)
Definition totalItems (todo : Todo.t) : nat :=
  1 + length (Todo.subtasks todo).

Definition completedItems (todo : Todo.t) : nat :=
  (if Todo.completed todo then 1 else 0)
  + length (List.filter Subtask.completed (Todo.subtasks todo)).

(** [todo.subtasks.length > 0]: whether the subtasks section is rendered. *)
Definition subtasksRendered (todo : Todo.t) : bool :=
  (0 <? length (Todo.subtasks todo))%nat.

(** ** Vocabulary of the statements *)





Definition ids (st : AppState) : list string := Todo.id <$> todos st.

(** The ids and texts of the tasks, in the order of the list. *)
Definition idText (st : AppState) : list (string * string) :=
  (λ t, (Todo.id t, Todo.text t)) <$> todos st.

(** When the Break Down button of a task does not fire. *)
Definition breakDownInert (todo : Todo.t) : Prop :=
  Todo.subtasks todo ≠ [] ∨ Todo.completed todo = true
  ∨ Todo.isGenerating todo = Some true.

(** Every task marked as generating has a call in flight. *)
Definition marked_inflight (w : World) : Prop :=
  ∀ t, t ∈ todos (app w) → Todo.isGenerating t = Some true →
       Todo.id t ∈ (fst <$> inflight w).

(** The task [t] with every subtask marked as completed. *)
Definition allDone (t : Todo.t) : Todo.t :=
  Todo.with_completed_subtasks (Todo.completed t)
    (Subtask.with_completed true <$> Todo.subtasks t) t.

(** Closes [¬ reportsFailure st] once [error st] evaluates to [None]. *)
Ltac no_failure :=
  let H := fresh "H" in
  unfold reportsFailure; simpl; intros H; by apply H.

(** * Properties *)

(** ** Shared facts *)

Lemma forallb_completed_Forall (ss : list Subtask.t) :
  forallb Subtask.completed ss = true ↔
  Forall (λ s, Subtask.completed s = true) ss.
Proof.
  induction ss as [|s ss IH]; simpl.
  - split; [constructor | reflexivity].
  - rewrite andb_true_iff, IH, Forall_cons. reflexivity.
Qed.

Lemma toggleSubtask_absent (subtaskId : string) (ss : list Subtask.t) :
  Forall (λ s, Subtask.id s ≠ subtaskId) ss →
  toggleSubtask subtaskId <$> ss = ss.
Proof.
  induction 1 as [|s ss Hs _ IH]; csimpl; [reflexivity|].
  rewrite IH. unfold toggleSubtask.
  destruct (decide (Subtask.id s = subtaskId)); [contradiction | reflexivity].
Qed.

Lemma toggleSubtaskIn_completed (todoId subtaskId : string) (t : Todo.t) :
  Todo.id t = todoId →
  Todo.completed (toggleSubtaskIn todoId subtaskId t) =
    forallb Subtask.completed (Todo.subtasks (toggleSubtaskIn todoId subtaskId t))
    && (0 <? length (Todo.subtasks (toggleSubtaskIn todoId subtaskId t)))%nat.
Proof.
  intros Hid. unfold toggleSubtaskIn.
  destruct (decide (Todo.id t ≠ todoId)); [contradiction | reflexivity].
Qed.

Lemma filter_negb_completed_sublist (l : list Todo.t) :
  List.filter (λ t, negb (Todo.completed t)) l `sublist_of` l.
Proof.
  induction l as [|t l IH]; simpl; [constructor|].
  destruct (negb (Todo.completed t)); by constructor.
Qed.

Lemma map_untouched {A : Type} (f : A → A) (l : list A) :
  Forall (λ x, f x = x) l → f <$> l = l.
Proof.
  induction 1 as [|x l Hx _ IH]; csimpl; [reflexivity|]. by rewrite Hx, IH.
Qed.

(** ** Subtask toggling ([handleToggleSubtask]) *)

(** C4: after [handleToggleSubtask todoId subtaskId], where [todoId] names a
    task of the store and [subtaskId] one of its subtasks (so the task has
    at least one subtask), that task keeps its place, its id and the number
    of its subtasks, and its [completed] flag equals the conjunction of the
    [completed] flags of its subtasks: it is [true] exactly when every
    subtask is completed. *)
Theorem handleToggleSubtask_completed_is_all
    (st : AppState) (todoId subtaskId : string) (k : nat) (t : Todo.t) :
  todos st !! k = Some t →
  Todo.id t = todoId →
  (∃ s, s ∈ Todo.subtasks t ∧ Subtask.id s = subtaskId) →
  ∃ t', todos (handleToggleSubtask todoId subtaskId st) !! k = Some t'
      ∧ Todo.id t' = todoId
      ∧ length (Todo.subtasks t') = length (Todo.subtasks t)
      ∧ (0 < length (Todo.subtasks t'))%nat
      ∧ Todo.completed t' = forallb Subtask.completed (Todo.subtasks t')
      ∧ (Todo.completed t' = true ↔
         Forall (λ s, Subtask.completed s = true) (Todo.subtasks t')).
Proof.
  intros Hk Hid (s & Hs & _).
  exists (toggleSubtaskIn todoId subtaskId t).
  assert (Hlen : length (Todo.subtasks (toggleSubtaskIn todoId subtaskId t))
                 = length (Todo.subtasks t)).
  { unfold toggleSubtaskIn.
    destruct (decide (Todo.id t ≠ todoId)); [contradiction|].
    simpl. apply length_fmap. }
  assert (Hpos : (0 < length (Todo.subtasks t))%nat).
  { destruct (Todo.subtasks t); [by apply elem_of_nil in Hs | simpl; lia]. }
  assert (Hall : Todo.completed (toggleSubtaskIn todoId subtaskId t)
                 = forallb Subtask.completed
                     (Todo.subtasks (toggleSubtaskIn todoId subtaskId t))).
  { rewrite toggleSubtaskIn_completed by exact Hid.
    rewrite Hlen. apply Nat.ltb_lt in Hpos. rewrite Hpos.
    apply andb_true_r. }
  split_and!.
  - unfold handleToggleSubtask, setTodos; simpl.
    by rewrite list_lookup_fmap, Hk.
  - unfold toggleSubtaskIn.
    destruct (decide (Todo.id t ≠ todoId)); [contradiction | exact Hid].
  - exact Hlen.
  - by rewrite Hlen.
  - exact Hall.
  - rewrite Hall. apply forallb_completed_Forall.
Qed.

Lemma handleToggleSubtask_completed_is_all_witness :
  let t := sampleTodo "t1" false [sampleSub "s1" true; sampleSub "s2" false] None in
  let st := sampleState [t] in
  st.(todos) !! 0%nat = Some t ∧
  Todo.id t = "t1" ∧
  (∃ s, s ∈ Todo.subtasks t ∧ Subtask.id s = "s2") ∧
  ∃ t', todos (handleToggleSubtask "t1" "s2" st) !! 0%nat = Some t'
      ∧ Todo.id t' = "t1"
      ∧ length (Todo.subtasks t') = length (Todo.subtasks t)
      ∧ (0 < length (Todo.subtasks t'))%nat
      ∧ Todo.completed t' = forallb Subtask.completed (Todo.subtasks t')
      ∧ (Todo.completed t' = true ↔
         Forall (λ s, Subtask.completed s = true) (Todo.subtasks t')).
Proof.
  intros t st.
  assert (Hs : ∃ s, s ∈ Todo.subtasks t ∧ Subtask.id s = "s2").
  { exists (sampleSub "s2" false). split; [repeat constructor | reflexivity]. }
  split_and!; [reflexivity | reflexivity | exact Hs |].
  exact (handleToggleSubtask_completed_is_all st "t1" "s2" 0 t eq_refl eq_refl Hs).
Defined.

(** Toggling the last open subtask completes the parent; toggling it again
    reopens the parent. *)
Example handleToggleSubtask_last_open :
  let t := sampleTodo "t1" false [sampleSub "s1" true; sampleSub "s2" false] None in
  todos (handleToggleSubtask "t1" "s2" (sampleState [t]))
    = [sampleTodo "t1" true [sampleSub "s1" true; sampleSub "s2" true] None]
  ∧ todos (handleToggleSubtask "t1" "s2"
             (handleToggleSubtask "t1" "s2" (sampleState [t]))) = [t].
Proof. split; reflexivity. Qed.

(** C10: [handleToggleSubtask todoId subtaskId] on a task of the store none
    of whose subtasks has id [subtaskId] leaves the subtasks as they are
    and still recomputes [completed] as (all subtasks completed) and
    (subtasks non-empty); a task without subtasks ends up not completed,
    whatever its flag was. *)
Theorem handleToggleSubtask_foreign_subtask
    (st : AppState) (todoId subtaskId : string) (k : nat) (t : Todo.t) :
  todos st !! k = Some t →
  Todo.id t = todoId →
  Forall (λ s, Subtask.id s ≠ subtaskId) (Todo.subtasks t) →
  ∃ t', todos (handleToggleSubtask todoId subtaskId st) !! k = Some t'
      ∧ Todo.subtasks t' = Todo.subtasks t
      ∧ Todo.completed t' =
          forallb Subtask.completed (Todo.subtasks t)
          && (0 <? length (Todo.subtasks t))%nat
      ∧ (Todo.subtasks t = [] → Todo.completed t' = false)
      ∧ Todo.id t' = Todo.id t ∧ Todo.text t' = Todo.text t
      ∧ Todo.isExpanded t' = Todo.isExpanded t
      ∧ Todo.isGenerating t' = Todo.isGenerating t.
Proof.
  intros Hk Hid Hforeign.
  exists (toggleSubtaskIn todoId subtaskId t).
  split.
  { unfold handleToggleSubtask, setTodos; simpl.
    by rewrite list_lookup_fmap, Hk. }
  unfold toggleSubtaskIn.
  destruct (decide (Todo.id t ≠ todoId)); [contradiction|].
  rewrite (toggleSubtask_absent _ _ Hforeign). simpl.
  split_and!; try reflexivity.
  intros ->. reflexivity.
Qed.

Lemma handleToggleSubtask_foreign_subtask_witness :
  let t := sampleTodo "t1" true [] None in
  let st := sampleState [t] in
  todos st !! 0%nat = Some t ∧
  Todo.id t = "t1" ∧
  Forall (λ s, Subtask.id s ≠ "nope") (Todo.subtasks t) ∧
  ∃ t', todos (handleToggleSubtask "t1" "nope" st) !! 0%nat = Some t'
      ∧ Todo.subtasks t' = Todo.subtasks t
      ∧ Todo.completed t' =
          forallb Subtask.completed (Todo.subtasks t)
          && (0 <? length (Todo.subtasks t))%nat
      ∧ (Todo.subtasks t = [] → Todo.completed t' = false)
      ∧ Todo.id t' = Todo.id t ∧ Todo.text t' = Todo.text t
      ∧ Todo.isExpanded t' = Todo.isExpanded t
      ∧ Todo.isGenerating t' = Todo.isGenerating t.
Proof.
  intros t st.
  split_and!; [reflexivity | reflexivity | constructor |].
  exact (handleToggleSubtask_foreign_subtask st "t1" "nope" 0 t
           eq_refl eq_refl (Forall_nil_2 _)).
Defined.

(** A completed task without subtasks is reopened by a subtask toggle that
    names no subtask. *)
Example handleToggleSubtask_resets_childless :
  todos (handleToggleSubtask "t1" "nope" (sampleState [sampleTodo "t1" true [] None]))
    = [sampleTodo "t1" false [] None].
Proof. reflexivity. Qed.

(** ** Task toggling ([handleToggleTodo]) *)

(** C5: [handleToggleTodo i] flips [completed] of the task with id [i]; when
    the flag becomes [true] every subtask of the task is completed
    afterwards (same subtasks otherwise, in the same order); when it becomes
    [false] the subtasks are untouched. *)
Theorem handleToggleTodo_propagates_down
    (st : AppState) (i : string) (k : nat) (t : Todo.t) :
  todos st !! k = Some t →
  Todo.id t = i →
  ∃ t', todos (handleToggleTodo i st) !! k = Some t'
      ∧ Todo.completed t' = negb (Todo.completed t)
      ∧ (Todo.completed t' = true →
           Todo.subtasks t' = Subtask.with_completed true <$> Todo.subtasks t
           ∧ Forall (λ s, Subtask.completed s = true) (Todo.subtasks t'))
      ∧ (Todo.completed t' = false → Todo.subtasks t' = Todo.subtasks t).
Proof.
  intros Hk Hid.
  exists (toggleTodo i t). split.
  { unfold handleToggleTodo, setTodos; simpl.
    by rewrite list_lookup_fmap, Hk. }
  unfold toggleTodo.
  destruct (decide (Todo.id t = i)); [|contradiction].
  simpl. split; [reflexivity|].
  destruct (Todo.completed t); simpl; split; intros Hc; try discriminate.
  - reflexivity.
  - split; [reflexivity|].
    apply Forall_fmap, Forall_true. intros s. reflexivity.
Qed.

Lemma handleToggleTodo_propagates_down_witness :
  let t := sampleTodo "t1" false [sampleSub "s1" true; sampleSub "s2" false] None in
  let st := sampleState [sampleTodo "t0" false [] None; t] in
  todos st !! 1%nat = Some t ∧
  Todo.id t = "t1" ∧
  ∃ t', todos (handleToggleTodo "t1" st) !! 1%nat = Some t'
      ∧ Todo.completed t' = negb (Todo.completed t)
      ∧ (Todo.completed t' = true →
           Todo.subtasks t' = Subtask.with_completed true <$> Todo.subtasks t
           ∧ Forall (λ s, Subtask.completed s = true) (Todo.subtasks t'))
      ∧ (Todo.completed t' = false → Todo.subtasks t' = Todo.subtasks t).
Proof.
  intros t st. split_and!; [reflexivity | reflexivity |].
  exact (handleToggleTodo_propagates_down st "t1" 1 t eq_refl eq_refl).
Defined.

(** Completing a task completes its subtasks; reopening it keeps them
    completed. *)
Example handleToggleTodo_twice :
  let t := sampleTodo "t1" false [sampleSub "s1" true; sampleSub "s2" false] None in
  todos (handleToggleTodo "t1" (sampleState [t]))
    = [sampleTodo "t1" true [sampleSub "s1" true; sampleSub "s2" true] None]
  ∧ todos (handleToggleTodo "t1" (handleToggleTodo "t1" (sampleState [t])))
    = [sampleTodo "t1" false [sampleSub "s1" true; sampleSub "s2" true] None].
Proof. split; reflexivity. Qed.

Lemma toggleTodo_other (i : string) (l : list Todo.t) :
  Forall (λ t, Todo.id t ≠ i) l → toggleTodo i <$> l = l.
Proof.
  intros H. apply map_untouched. eapply Forall_impl; [exact H|].
  intros t Ht. unfold toggleTodo.
  destruct (decide (Todo.id t = i)); [contradiction | reflexivity].
Qed.

(** C6 (as the spec states it, refuted): [handleToggleTodo] with an id that
    no task has reports nothing.  On a store whose only task has another id
    and with no error shown, the state after the call is the state before
    it and no failure is reported. *)
Lemma handleToggleTodo_absent_not_reported :
  let st := sampleState [sampleTodo "t1" false [] None] in
  Forall (λ t, Todo.id t ≠ "gone") (todos st)
  ∧ handleToggleTodo "gone" st = st
  ∧ ¬ reportsFailure (handleToggleTodo "gone" st).
Proof.
  intros st. split_and!.
  - repeat constructor. discriminate.
  - reflexivity.
  - no_failure.
Qed.

(** C6 (amended): [handleToggleTodo i] with an id that no task of the store
    has is a silent no-op: the whole component state, its error field
    included, is unchanged. *)
Theorem handleToggleTodo_absent_noop (st : AppState) (i : string) :
  Forall (λ t, Todo.id t ≠ i) (todos st) →
  handleToggleTodo i st = st.
Proof.
  intros H. unfold handleToggleTodo, setTodos.
  rewrite (toggleTodo_other _ _ H). by destruct st.
Qed.

Lemma handleToggleTodo_absent_noop_witness :
  let st := sampleState [sampleTodo "t1" true [sampleSub "s1" true] None] in
  Forall (λ t, Todo.id t ≠ "t2") (todos st) ∧ handleToggleTodo "t2" st = st.
Proof.
  intros st.
  assert (H : Forall (λ t, Todo.id t ≠ "t2") (todos st)).
  { repeat constructor. discriminate. }
  split; [exact H | exact (handleToggleTodo_absent_noop st "t2" H)].
Defined.

(** ** Adding a task ([handleAddTodo]) *)

Example trim_examples :
  trim "  Plan trip  " = "Plan trip"
  ∧ trim "   " = ""
  ∧ trim "" = ""
  ∧ trim (String (ascii_of_nat 9) ("a b" ++ String (ascii_of_nat 10) "")) = "a b".
Proof. repeat split. Qed.

(** C7 (as the spec states it, refuted): on an input that is blank after
    trimming, [handleAddTodo] reports no failure, it returns the state it
    was given; and on a valid input the id of the new task is the value
    obtained from [crypto.randomUUID()], which [handleAddTodo] does not
    compare with the ids of the store. *)
Lemma handleAddTodo_not_as_stated :
  let blank := {| todos := [sampleTodo "t1" false [] None];
                  inputText := "   "; filter := ALL; error := None |} in
  let st := {| todos := [sampleTodo "u-1" false [] None];
               inputText := "x"; filter := ALL; error := None |} in
  (trim (inputText blank) = ""
   ∧ handleAddTodo "u-1" blank = blank
   ∧ ¬ reportsFailure (handleAddTodo "u-1" blank))
  ∧ (trim (inputText st) ≠ ""
     ∧ Todo.id <$> todos (handleAddTodo "u-1" st) = ["u-1"; "u-1"]).
Proof.
  intros blank st. split_and!; try reflexivity.
  - no_failure.
  - discriminate.
Qed.

(** C7 (amended): on an input that is blank after trimming,
    [handleAddTodo] is a silent no-op.  Otherwise it puts exactly one new
    task in front of the previous tasks, which stay as they were and in
    their order; the new task has the id obtained from
    [crypto.randomUUID()], the trimmed input as text, [completed = false],
    [isExpanded = false], no subtasks and no [isGenerating] field; the
    input field is cleared and the rest of the state is kept.  The new id
    differs from every id of the store whenever the obtained value does. *)
Theorem handleAddTodo_spec (uuid : string) (st : AppState) :
  (trim (inputText st) = "" → handleAddTodo uuid st = st)
  ∧ (trim (inputText st) ≠ "" →
       ∃ t, todos (handleAddTodo uuid st) = t :: todos st
          ∧ Todo.id t = uuid
          ∧ Todo.text t = trim (inputText st)
          ∧ Todo.completed t = false
          ∧ Todo.isExpanded t = false
          ∧ Todo.subtasks t = []
          ∧ Todo.isGenerating t = None
          ∧ inputText (handleAddTodo uuid st) = ""
          ∧ filter (handleAddTodo uuid st) = filter st
          ∧ error (handleAddTodo uuid st) = error st
          ∧ (uuid ∉ Todo.id <$> todos st →
               Forall (λ t0, Todo.id t0 ≠ Todo.id t) (todos st))).
Proof.
  unfold handleAddTodo.
  destruct (decide (trim (inputText st) = "")) as [Hb|Hb]; split; intros H;
    try contradiction; [reflexivity|].
  exists (newTodo uuid (inputText st)). simpl.
  split_and!; try reflexivity.
  intros Hfresh. apply Forall_forall. intros t0 Ht0 Heq.
  apply Hfresh. apply list_elem_of_fmap. exists t0. split; [by symmetry | exact Ht0].
Qed.

Lemma handleAddTodo_spec_witness :
  let st := {| todos := [sampleTodo "t1" false [] None];
               inputText := nbsp ++ " Buy milk " ++ nbsp;
               filter := ACTIVE; error := None |} in
  trim (inputText st) ≠ ""
  ∧ todos (handleAddTodo "u-2" st)
      = {| Todo.id := "u-2"; Todo.text := "Buy milk"; Todo.completed := false;
           Todo.isExpanded := false; Todo.subtasks := [];
           Todo.isGenerating := None |} :: todos st.
Proof.
  intros st.
  assert (Hne : trim (inputText st) ≠ "") by (vm_compute; discriminate).
  split; [exact Hne|].
  destruct (proj2 (handleAddTodo_spec "u-2" st) Hne)
    as (t & Htodos & Hid & Htext & Hc & He & Hs & Hg & _).
  rewrite Htodos. f_equal.
  destruct t; simpl in *. by subst.
Defined.

(** ** Clearing completed tasks ([handleClearCompleted]) *)

(** C8: [handleClearCompleted] keeps exactly the tasks that are not
    completed: a task is in the result iff it was in the store and is not
    completed; the result is a subsequence of the store (retained tasks are
    the same values in the same relative order); the retained and the
    removed tasks together account for every position of the store; the
    rest of the state is untouched. *)
Theorem handleClearCompleted_exact (st : AppState) :
  (∀ t, t ∈ todos (handleClearCompleted st) ↔
        t ∈ todos st ∧ Todo.completed t = false)
  ∧ todos (handleClearCompleted st) `sublist_of` todos st
  ∧ (length (todos (handleClearCompleted st))
     + length (List.filter Todo.completed (todos st)) = length (todos st))%nat
  ∧ inputText (handleClearCompleted st) = inputText st
  ∧ filter (handleClearCompleted st) = filter st
  ∧ error (handleClearCompleted st) = error st.
Proof.
  unfold handleClearCompleted, setTodos; simpl.
  split_and!; try reflexivity.
  - intros t. rewrite !list_elem_of_In, filter_In, negb_true_iff. reflexivity.
  - apply filter_negb_completed_sublist.
  - induction (todos st) as [|t l IH]; simpl; [reflexivity|].
    destruct (Todo.completed t); simpl; lia.
Qed.

Example handleClearCompleted_sample :
  todos (handleClearCompleted (sampleState
    [ sampleTodo "a" false [] None; sampleTodo "b" true [] None;
      sampleTodo "c" false [sampleSub "s" true] None; sampleTodo "d" true [] None ]))
  = [ sampleTodo "a" false [] None; sampleTodo "c" false [sampleSub "s" true] None ].
Proof. reflexivity. Qed.

(** ** Restoring the saved list ([useState] initializer) *)

(** C9: when nothing was saved ([getItem] returns [null]) and when the
    saved text does not parse ([JSON.parse] throws), the initial task list
    is empty; the initializer returns a list in every case. *)
Theorem initialTodos_fail_soft
    (JSON_parse : string → option (list Todo.t)) (saved : option string) :
  saved = None ∨ (∃ s, saved = Some s ∧ JSON_parse s = None) →
  initialTodos JSON_parse saved = [].
Proof.
  intros [-> | (s & -> & Hs)]; simpl; [reflexivity|].
  rewrite Hs. by destruct (decide (s = "")).
Qed.

Lemma initialTodos_fail_soft_witness :
  let parse := parseTable [("[]", @nil Todo.t)] in
  let saved := Some "{'id': oops" in
  (saved = None ∨ (∃ s, saved = Some s ∧ parse s = None))
  ∧ initialTodos parse saved = [].
Proof.
  intros parse saved.
  assert (H : saved = None ∨ (∃ s, saved = Some s ∧ parse s = None)).
  { right. exists "{'id': oops". split; reflexivity. }
  split; [exact H | exact (initialTodos_fail_soft parse saved H)].
Defined.

Example initialTodos_cases :
  let parse := parseTable [("[]", @nil Todo.t)] in
  initialTodos parse None = []
  ∧ initialTodos parse (Some "") = []
  ∧ initialTodos parse (Some "[") = []
  ∧ initialTodos parse (Some "[]") = [].
Proof. repeat split. Qed.

(** ** Decomposition ([generateSubtasks], [handleGenerateSubtasks]) *)

Lemma lookup_todos_settle_fulfilled
    (rand : nat → string) (i : string) (texts : list string)
    (st : AppState) (k : nat) :
  todos (handleGenerateSubtasks_settle rand i (Fulfilled texts) st) !! k
  = (λ t, if decide (Todo.id t ≠ i) then t
          else Todo.resolved (newSubtasks rand texts) t) <$> todos st !! k.
Proof. simpl. apply list_lookup_fmap. Qed.

Lemma settle_todos_absent
    (rand : nat → string) (i : string) (outcome : Settled (list string))
    (st : AppState) :
  Forall (λ t, Todo.id t ≠ i) (todos st) →
  todos (handleGenerateSubtasks_settle rand i outcome st) = todos st.
Proof.
  intros H. destruct outcome; simpl; apply map_untouched;
    (eapply Forall_impl; [exact H|]); intros t Ht; simpl.
  - destruct (decide (Todo.id t ≠ i)); [reflexivity | contradiction].
  - destruct (decide (Todo.id t = i)); [contradiction | reflexivity].
Qed.

(** X26: [generateSubtasks] rejects exactly when a key is set and either
    the request throws or the non-empty text of the response does not
    parse. *)
Lemma generateSubtasks_rejected_iff
    (JSON_parse : string → ParsedSubtasks) (apiKey taskText : string)
    (reply : GenerateContent) :
  generateSubtasks JSON_parse apiKey reply taskText = Rejected ↔
  apiKey ≠ "" ∧
  (reply = Thrown
   ∨ ∃ jsonText, reply = Response (Some jsonText) ∧ jsonText ≠ ""
                 ∧ JSON_parse jsonText = SyntaxError).
Proof.
  unfold generateSubtasks.
  destruct (decide (apiKey = "")) as [Hk|Hk].
  { split; [discriminate | intros [H _]; contradiction]. }
  destruct reply as [|[j|]].
  - split; [intros _; split; [exact Hk | by left] | reflexivity].
  - destruct (decide (j = "")) as [Hj|Hj].
    + split; [discriminate|].
      intros (_ & [H | (j' & [= <-] & Hne & _)]); [discriminate | contradiction].
    + destruct (JSON_parse j) eqn:Hp.
      * split; [|reflexivity]. intros _. split; [exact Hk|]. right. by exists j.
      * split; [discriminate|].
        intros (_ & [H | (j' & [= <-] & _ & Hs)]); [discriminate | congruence].
      * split; [discriminate|].
        intros (_ & [H | (j' & [= <-] & _ & Hs)]); [discriminate | congruence].
  - split; [discriminate|].
    intros (_ & [H | (j' & H & _)]); discriminate.
Qed.

(** C2 (as the spec states it, refuted): a fulfilled decomposition with no
    subtask texts is not handled as a failure.  The service fulfills with
    the empty list when the response has no text, when its text parses to
    something that is not an array, and when it parses to the empty array;
    [handleGenerateSubtasks] then leaves
    the task with no subtasks, not generating, expanded, and reports
    nothing, whereas the failure branch sets the error message and does not
    expand the task. *)
Lemma empty_decomposition_not_failure :
  let t := sampleTodo "t1" false [] (Some true) in
  let st := sampleState [t] in
  generateSubtasks sampleParse "key" (Response None) "Plan trip" = Fulfilled []
  ∧ generateSubtasks sampleParse "key" (Response (Some "{}")) "Plan trip" = Fulfilled []
  ∧ generateSubtasks sampleParse "key" (Response (Some "[]")) "Plan trip" = Fulfilled []
  ∧ handleGenerateSubtasks_settle sampleRand "t1" (Fulfilled []) st
    = sampleState [ {| Todo.id := "t1"; Todo.text := "Plan trip";
                       Todo.completed := false; Todo.isExpanded := true;
                       Todo.subtasks := []; Todo.isGenerating := Some false |} ]
  ∧ ¬ reportsFailure (handleGenerateSubtasks_settle sampleRand "t1" (Fulfilled []) st)
  ∧ handleGenerateSubtasks_settle sampleRand "t1" (Fulfilled []) st
    ≠ handleGenerateSubtasks_settle sampleRand "t1" Rejected st.
Proof.
  intros t st. split_and!; try reflexivity.
  - no_failure.
  - discriminate.
Qed.

(** C2 (amended): with an API key set, when the response of the model has
    no text, an empty text, a text that parses to a value that is not an
    array, or a text that parses to the empty array (zero items),
    [generateSubtasks] fulfills with the empty list, and
    [handleGenerateSubtasks] resolves it as a success: the task with the
    requested id ends up with no subtasks, [isGenerating = false] and
    [isExpanded = true], its other fields kept, and the error state is left
    as it was. *)
Theorem empty_decomposition_is_success
    (JSON_parse : string → ParsedSubtasks) (rand : nat → string)
    (apiKey taskText : string) (reply : GenerateContent)
    (st : AppState) (i : string) (k : nat) (t : Todo.t) :
  apiKey ≠ "" →
  (reply = Response None ∨ reply = Response (Some "")
   ∨ ∃ jsonText, reply = Response (Some jsonText)
                 ∧ (JSON_parse jsonText = NotArray
                    ∨ JSON_parse jsonText = ArrayOf [])) →
  todos st !! k = Some t →
  Todo.id t = i →
  let outcome := generateSubtasks JSON_parse apiKey reply taskText in
  let st' := handleGenerateSubtasks_settle rand i outcome st in
  outcome = Fulfilled []
  ∧ (∃ t', todos st' !! k = Some t'
         ∧ Todo.subtasks t' = []
         ∧ Todo.isGenerating t' = Some false
         ∧ Todo.isExpanded t' = true
         ∧ Todo.id t' = Todo.id t ∧ Todo.text t' = Todo.text t
         ∧ Todo.completed t' = Todo.completed t)
  ∧ error st' = error st.
Proof.
  intros Hkey Hreply Hk Hid outcome st'.
  assert (Hout : outcome = Fulfilled []).
  { subst outcome. unfold generateSubtasks.
    destruct (decide (apiKey = "")); [contradiction|].
    destruct Hreply as [-> | [-> | (j & -> & Hj)]]; try reflexivity.
    destruct (decide (j = "")); [reflexivity|].
    by destruct Hj as [-> | ->]. }
  split; [exact Hout|].
  subst st'. rewrite Hout. split; [|reflexivity].
  rewrite lookup_todos_settle_fulfilled, Hk. simpl.
  destruct (decide (Todo.id t ≠ i)); [contradiction|].
  eexists. split; [reflexivity|]. simpl. by split_and!.
Qed.

Lemma empty_decomposition_is_success_witness :
  let t := sampleTodo "t1" false [] (Some true) in
  let st := sampleState [t] in
  let reply := Response (Some "[]") in
  "key" ≠ ""
  ∧ (reply = Response None ∨ reply = Response (Some "")
     ∨ ∃ jsonText, reply = Response (Some jsonText)
                   ∧ (sampleParse jsonText = NotArray
                      ∨ sampleParse jsonText = ArrayOf []))
  ∧ todos st !! 0%nat = Some t
  ∧ Todo.id t = "t1"
  ∧ generateSubtasks sampleParse "key" reply "Plan trip" = Fulfilled [].
Proof.
  intros t st reply.
  assert (Hkey : "key" ≠ "") by discriminate.
  assert (Hreply : reply = Response None ∨ reply = Response (Some "")
     ∨ ∃ jsonText, reply = Response (Some jsonText)
                   ∧ (sampleParse jsonText = NotArray
                      ∨ sampleParse jsonText = ArrayOf [])).
  { right. right. exists "[]". split; [reflexivity | by right]. }
  split_and!; [exact Hkey | exact Hreply | reflexivity | reflexivity |].
  exact (proj1 (empty_decomposition_is_success sampleParse sampleRand
                  "key" "Plan trip" reply st "t1" 0 t Hkey Hreply eq_refl eq_refl)).
Defined.

(** The scenario of a non-empty answer. *)
Example decomposition_scenario :
  let t := sampleTodo "t1" false [] None in
  let w0 := {| app := sampleState [t]; inflight := [] |} in
  let w1 := fire (ClickBreakDown t) w0 in
  let out := generateSubtasks sampleParse ""
               Thrown "Plan trip" in
  let w2 := fire (Settles 0 out sampleRand) w1 in
  inflight w1 = [("t1", "Plan trip")]
  ∧ Todo.isGenerating <$> todos (app w1) = [Some true]
  ∧ inflight w2 = []
  ∧ todos (app w2)
    = [ {| Todo.id := "t1"; Todo.text := "Plan trip"; Todo.completed := false;
           Todo.isExpanded := true;
           Todo.subtasks :=
             [ {| Subtask.id := "sub-0"; Subtask.text := "Research Plan trip";
                  Subtask.completed := false |};
               {| Subtask.id := "sub-1"; Subtask.text := "Draft outline for Plan trip";
                  Subtask.completed := false |};
               {| Subtask.id := "sub-2"; Subtask.text := "Review and finalize Plan trip";
                  Subtask.completed := false |} ];
           Todo.isGenerating := Some false |} ].
Proof. repeat split. Qed.

(** C3 (as the spec states it, refuted): a settlement is not checked
    against any token.  First run: the task is deleted while its request is
    in flight and the request fails; the failure is reported although no
    task is left to report it for.  Second run: the handler is called twice
    for one task; the settlement of the first call rewrites the task
    although the second call is the pending one and is still awaited. *)
Lemma stale_settlement_not_discarded :
  let t1 := sampleTodo "t1" false [] None in
  let t2 := sampleTodo "t2" false [] None in
  let w0 := {| app := sampleState [t1; t2]; inflight := [] |} in
  let w1 := fire (ClickBreakDown t1) w0 in
  let w2 := fire (ClickDelete "t1") w1 in
  let w3 := fire (Settles 0 Rejected sampleRand) w2 in
  let v0 := {| app := sampleState [t1]; inflight := [] |} in
  let v2 := handleGenerateSubtasks_begin "t1" "Plan trip"
              (handleGenerateSubtasks_begin "t1" "Plan trip" v0) in
  let v3 := settle sampleRand 0 (Fulfilled ["Book flights"]) v2 in
  (inflight w2 = [("t1", "Plan trip")]
   ∧ Forall (λ t, Todo.id t ≠ "t1") (todos (app w2))
   ∧ error (app w2) = None
   ∧ error (app w3) = Some failedMessage
   ∧ app w3 ≠ app w2
   ∧ reportsFailure (app w3))
  ∧ (inflight v2 = [("t1", "Plan trip"); ("t1", "Plan trip")]
     ∧ inflight v3 = [("t1", "Plan trip")]
     ∧ todos (app v3) ≠ todos (app v2)
     ∧ Todo.isGenerating <$> todos (app v3) = [Some false]
     ∧ Todo.subtasks <$> todos (app v3)
       = [[ {| Subtask.id := "sub-0"; Subtask.text := "Book flights";
               Subtask.completed := false |} ]]).
Proof.
  intros t1 t2 w0 w1 w2 w3 v0 v2 v3. split_and!; try reflexivity.
  - repeat constructor. discriminate.
  - discriminate.
  - discriminate.
  - vm_compute. discriminate.
Qed.

(** C3 (amended): there is no token; a settlement is matched with tasks by
    id.  When no task of the store has the id of the request (the task was
    deleted while the request was in flight), the task list is unchanged,
    and after a fulfilled request so is the whole state.  A task that has
    the id is rewritten, whichever call the settlement answers: a fulfilled
    request gives it the new subtasks, [isGenerating = false] and
    [isExpanded = true], a rejected one only [isGenerating = false].  Tasks
    with another id, the input and the filter are kept; the error state is
    kept by a fulfilled request and holds the failure message after a
    rejected one. *)
Theorem settle_matches_by_id
    (rand : nat → string) (i : string) (outcome : Settled (list string))
    (st : AppState) :
  let st' := handleGenerateSubtasks_settle rand i outcome st in
  (Forall (λ t, Todo.id t ≠ i) (todos st) →
     todos st' = todos st ∧ (∀ texts, outcome = Fulfilled texts → st' = st))
  ∧ (∀ k t, todos st !! k = Some t → Todo.id t = i →
       todos st' !! k =
         Some match outcome with
              | Fulfilled texts => Todo.resolved (newSubtasks rand texts) t
              | Rejected => Todo.with_isGenerating false t
              end)
  ∧ (∀ k t, todos st !! k = Some t → Todo.id t ≠ i → todos st' !! k = Some t)
  ∧ inputText st' = inputText st
  ∧ filter st' = filter st
  ∧ error st' = match outcome with
                | Fulfilled _ => error st
                | Rejected => Some failedMessage
                end.
Proof.
  intros st'. subst st'. split_and!; try (by destruct outcome).
  - intros H. split; [by apply settle_todos_absent|].
    intros texts ->.
    pose proof (settle_todos_absent rand i (Fulfilled texts) st H) as Ht.
    destruct st as [l inp f e]. simpl in *. unfold setTodos. simpl. by rewrite Ht.
  - intros k t Hk Hid. destruct outcome; simpl; rewrite list_lookup_fmap, Hk; simpl.
    + destruct (decide (Todo.id t ≠ i)); [contradiction | reflexivity].
    + destruct (decide (Todo.id t = i)); [reflexivity | contradiction].
  - intros k t Hk Hid. destruct outcome; simpl; rewrite list_lookup_fmap, Hk; simpl.
    + destruct (decide (Todo.id t ≠ i)); [reflexivity | contradiction].
    + destruct (decide (Todo.id t = i)); [contradiction | reflexivity].
Qed.

Lemma settle_matches_by_id_witness :
  let st := sampleState [sampleTodo "t2" false [] None] in
  Forall (λ t, Todo.id t ≠ "t1") (todos st)
  ∧ todos (handleGenerateSubtasks_settle sampleRand "t1" (Fulfilled ["a"; "b"]) st)
    = todos st.
Proof.
  intros st.
  assert (H : Forall (λ t, Todo.id t ≠ "t1") (todos st)).
  { repeat constructor. discriminate. }
  split; [exact H|].
  exact (proj1 (proj1 (settle_matches_by_id sampleRand "t1"
                         (Fulfilled ["a"; "b"]) st) H)).
Defined.

(** ** At most one request in flight per task *)

Lemma keeps_marks_fmap (f : Todo.t → Todo.t) (l : list Todo.t) :
  (∀ t, Todo.id (f t) = Todo.id t ∧ Todo.isGenerating (f t) = Todo.isGenerating t) →
  keeps_marks l (f <$> l).
Proof.
  intros Hf t' Ht'. apply list_elem_of_fmap in Ht' as (t & -> & Ht).
  exists t. split; [exact Ht | apply Hf].
Qed.

Lemma keeps_marks_filter (p : Todo.t → bool) (l : list Todo.t) :
  keeps_marks l (List.filter p l).
Proof.
  intros t' Ht'. exists t'. split; [|by split].
  apply list_elem_of_In. apply list_elem_of_In, filter_In in Ht'. tauto.
Qed.

Lemma inflight_marked_keeps (w : World) (f : AppState → AppState) :
  keeps_marks (todos (app w)) (todos (f (app w))) →
  inflight_marked w → inflight_marked (onApp f w).
Proof.
  intros Hk Hm i t' Hi Ht' Hid. simpl in *.
  destruct (Hk t' Ht') as (t & Ht & Hidt & Hg).
  rewrite Hg. apply (Hm i t Hi Ht). congruence.
Qed.

Lemma filteredTodos_subseteq (st : AppState) (t : Todo.t) :
  t ∈ filteredTodos st → t ∈ todos st.
Proof.
  unfold filteredTodos. rewrite !list_elem_of_In, filter_In. tauto.
Qed.

Lemma clickBreakDown_generating_noop (todo : Todo.t) (w : World) :
  Todo.isGenerating todo = Some true → clickBreakDown todo w = w.
Proof.
  intros Hg. unfold clickBreakDown, breakDownDisabled. rewrite Hg. simpl.
  by rewrite andb_false_r.
Qed.

Lemma NoDup_lookup_delete {A : Type} (l : list A) (k : nat) (x : A) :
  NoDup l → l !! k = Some x → x ∉ delete k l.
Proof.
  intros Hnd Hk.
  rewrite <- (take_drop_middle l k x Hk) in Hnd.
  apply NoDup_app in Hnd as (_ & Hdisj & Htl).
  apply NoDup_cons in Htl as [Hx _].
  rewrite delete_take_drop. intros [Hin | Hin]%elem_of_app.
  - apply (Hdisj x Hin). left.
  - contradiction.
Qed.

Lemma begin_preserves (todo : Todo.t) (w : World) :
  one_in_flight w → inflight_marked w →
  Todo.id todo ∉ (fst <$> inflight w) →
  one_in_flight (handleGenerateSubtasks_begin (Todo.id todo) (Todo.text todo) w)
  ∧ inflight_marked (handleGenerateSubtasks_begin (Todo.id todo) (Todo.text todo) w).
Proof.
  intros Hone Hm Hfresh. split.
  - unfold one_in_flight. simpl. rewrite fmap_app. simpl.
    apply NoDup_app. split_and!; [exact Hone | | apply NoDup_singleton].
    intros x Hx ->%list_elem_of_singleton. contradiction.
  - intros i t' Hi Ht' Hid. simpl in *.
    apply list_elem_of_fmap in Ht' as (t & -> & Ht).
    destruct (decide (Todo.id t = Todo.id todo)) as [E|E]; [reflexivity|].
    rewrite fmap_app in Hi. apply elem_of_app in Hi as [Hi | Hi].
    + by apply (Hm i t).
    + simpl in Hi. apply list_elem_of_singleton in Hi. congruence.
Qed.

Lemma settle_preserves
    (rand : nat → string) (k : nat) (outcome : Settled (list string)) (w : World) :
  one_in_flight w → inflight_marked w →
  one_in_flight (settle rand k outcome w) ∧ inflight_marked (settle rand k outcome w).
Proof.
  intros Hone Hm. unfold settle.
  destruct (inflight w !! k) as [[i txt]|] eqn:Hk; [|by split].
  assert (Hsub : (fst <$> delete k (inflight w)) `sublist_of` (fst <$> inflight w)).
  { apply fmap_sublist, sublist_delete. }
  assert (Hi : i ∉ (fst <$> delete k (inflight w))).
  { rewrite list_fmap_delete. apply NoDup_lookup_delete; [exact Hone|].
    by rewrite list_lookup_fmap, Hk. }
  split.
  - unfold one_in_flight; simpl. eapply sublist_NoDup; [exact Hone | exact Hsub].
  - intros j t' Hj Ht' Hid. simpl in *.
    assert (Hji : j ≠ i) by (intros ->; contradiction).
    assert (Hj' : j ∈ (fst <$> inflight w)).
    { eapply sublist_subseteq; [exact Hsub | exact Hj]. }
    destruct outcome; simpl in Ht';
      apply list_elem_of_fmap in Ht' as (t & -> & Ht).
    + destruct (decide (Todo.id t ≠ i)) as [E|E]; [by apply (Hm j t)|].
      simpl in Hid. apply dec_stable in E. congruence.
    + destruct (decide (Todo.id t = i)) as [E|E]; [|by apply (Hm j t)].
      simpl in Hid. congruence.
Qed.

Lemma fire_preserves (e : Event) (w : World) :
  enabled e w → one_in_flight w ∧ inflight_marked w →
  one_in_flight (fire e w) ∧ inflight_marked (fire e w).
Proof.
  intros Hen [Hone Hm].
  assert (Hsync : ∀ f, keeps_marks (todos (app w)) (todos (f (app w))) →
            one_in_flight (onApp f w) ∧ inflight_marked (onApp f w)).
  { intros f Hf. split; [exact Hone | by apply inflight_marked_keeps]. }
  destruct e as [uuid|s|i|i|todoId subtaskId|i|todo| |f| |k outcome rand];
    simpl in *.
  - (* Submit *)
    split; [exact Hone|].
    intros i t' Hi Ht' Hid. simpl in *. unfold handleAddTodo in Ht'.
    destruct (decide (trim (inputText (app w)) = "")); [by apply (Hm i t')|].
    simpl in Ht'. apply elem_of_cons in Ht' as [-> | Ht']; [|by apply (Hm i t')].
    simpl in Hid. subst i. contradiction.
  - (* ChangeInput *)
    apply Hsync. intros t' Ht'. by exists t'.
  - (* ClickToggle *)
    apply Hsync, keeps_marks_fmap. intros t. unfold toggleTodo.
    by destruct (decide (Todo.id t = i)).
  - (* ClickDelete *)
    apply Hsync, keeps_marks_filter.
  - (* ClickSubtask *)
    apply Hsync, keeps_marks_fmap. intros t. unfold toggleSubtaskIn.
    by destruct (decide (Todo.id t ≠ todoId)).
  - (* ClickExpand *)
    apply Hsync, keeps_marks_fmap. intros t.
    by destruct (decide (Todo.id t = i)).
  - (* ClickBreakDown *)
    unfold clickBreakDown.
    destruct (breakDownRendered todo && negb (breakDownDisabled todo)) eqn:Hb;
      [|by split].
    apply begin_preserves; [exact Hone | exact Hm |].
    intros Hin. apply filteredTodos_subseteq in Hen.
    pose proof (Hm _ _ Hin Hen eq_refl) as Hg.
    unfold breakDownDisabled in Hb. rewrite Hg in Hb. simpl in Hb.
    by rewrite andb_false_r in Hb.
  - (* ClickClearCompleted *)
    apply Hsync, keeps_marks_filter.
  - (* ClickFilter *)
    apply Hsync. intros t' Ht'. by exists t'.
  - (* DismissError *)
    apply Hsync. intros t' Ht'. by exists t'.
  - (* Settles *)
    by apply settle_preserves.
Qed.

Lemma reachable_invariant (w0 w : World) :
  inflight w0 = [] → reachable w0 w → one_in_flight w ∧ inflight_marked w.
Proof.
  intros H0. induction 1 as [|w e _ IH Hen].
  - unfold one_in_flight, inflight_marked. rewrite H0. simpl. split.
    + constructor.
    + intros i t Hi. by apply elem_of_nil in Hi.
  - by apply fire_preserves.
Qed.

(** C1 (as the spec states it, refuted): [handleGenerateSubtasks] called for
    a task that is already generating does not fail; it issues a second
    request for the same task. *)
Lemma second_call_issues_second_request :
  let t := sampleTodo "t1" false [] (Some true) in
  let w := {| app := sampleState [t]; inflight := [("t1", "Plan trip")] |} in
  let w' := handleGenerateSubtasks_begin "t1" "Plan trip" w in
  Todo.isGenerating t = Some true
  ∧ inflight w' = [("t1", "Plan trip"); ("t1", "Plan trip")]
  ∧ ¬ reportsFailure (app w')
  ∧ ¬ one_in_flight w'.
Proof.
  intros t w w'. split_and!; try reflexivity.
  - no_failure.
  - unfold one_in_flight. simpl. intros H.
    apply NoDup_cons in H as [H _]. apply H. left.
Qed.

(** C1 (amended): [handleGenerateSubtasks] has no pending check, it always
    issues a request.  The check is the Break Down button, disabled while
    [isGenerating] is true.  In every run of the application that starts
    with no request in flight, no task id has two requests in flight; a
    task with a request in flight is marked as generating, and a click on
    its Break Down button changes nothing and issues no request. *)
Theorem ui_run_one_in_flight (w0 w : World) :
  inflight w0 = [] →
  reachable w0 w →
  one_in_flight w
  ∧ (∀ todo, todo ∈ todos (app w) → Todo.id todo ∈ (fst <$> inflight w) →
       Todo.isGenerating todo = Some true ∧ clickBreakDown todo w = w)
  ∧ (∀ i text, inflight (handleGenerateSubtasks_begin i text w)
               = (inflight w ++ [(i, text)])%list).
Proof.
  intros H0 Hr.
  destruct (reachable_invariant w0 w H0 Hr) as [Hone Hm].
  split_and!; [exact Hone | | reflexivity].
  intros todo Hin Hfl.
  pose proof (Hm _ _ Hfl Hin eq_refl) as Hg.
  split; [exact Hg | by apply clickBreakDown_generating_noop].
Qed.

Lemma ui_run_one_in_flight_witness :
  let t := sampleTodo "t1" false [] None in
  let w0 := {| app := sampleState [t]; inflight := [] |} in
  let w1 := fire (ClickBreakDown t) w0 in
  inflight w0 = []
  ∧ reachable w0 w1
  ∧ inflight w1 = [("t1", "Plan trip")]
  ∧ one_in_flight w1.
Proof.
  intros t w0 w1.
  assert (Hr : reachable w0 w1).
  { apply reach_step; [apply reach_init|]. simpl. left. }
  split_and!; [reflexivity | exact Hr | reflexivity |].
  exact (proj1 (ui_run_one_in_flight w0 w1 eq_refl Hr)).
Defined.

(** After the first click the button of the task is disabled: a second
    click leaves the world as it is. *)
Example second_click_does_nothing :
  let t := sampleTodo "t1" false [] None in
  let w0 := {| app := sampleState [t]; inflight := [] |} in
  let w1 := fire (ClickBreakDown t) w0 in
  ∀ t', t' ∈ filteredTodos (app w1) → fire (ClickBreakDown t') w1 = w1.
Proof.
  intros t w0 w1 t' Ht'. simpl in Ht'.
  apply list_elem_of_singleton in Ht' as ->. reflexivity.
Qed.

(** * Further properties of the handlers *)

(** ** Shared facts *)

Lemma fmap_involutive {A : Type} (f : A → A) (l : list A) :
  (∀ x, f (f x) = x) → f <$> (f <$> l) = l.
Proof.
  intros Hf. induction l as [|x l IH]; csimpl; [reflexivity|].
  by rewrite Hf, IH.
Qed.

Lemma filter_keep_all {A : Type} (p : A → bool) (l : list A) :
  Forall (λ x, p x = true) l → List.filter p l = l.
Proof.
  induction 1 as [|x l Hx _ IH]; simpl; [reflexivity|]. by rewrite Hx, IH.
Qed.

Lemma filter_sublist {A : Type} (p : A → bool) (l : list A) :
  List.filter p l `sublist_of` l.
Proof.
  induction l as [|x l IH]; simpl; [constructor|].
  destruct (p x); by constructor.
Qed.

Lemma filter_idempotent {A : Type} (p : A → bool) (l : list A) :
  List.filter p (List.filter p l) = List.filter p l.
Proof.
  apply filter_keep_all, Forall_forall. intros x Hx.
  apply list_elem_of_In, filter_In in Hx. tauto.
Qed.

Lemma appstate_eq (st st' : AppState) :
  todos st = todos st' → inputText st = inputText st' →
  filter st = filter st' → error st = error st' → st = st'.
Proof. destruct st, st'; simpl; congruence. Qed.

(** ** Deleting a task ([handleDeleteTodo]) *)

(** X1: [handleDeleteTodo i] keeps exactly the tasks whose id is not [i], as
    the same values in the same relative order; afterwards no task has id
    [i]; deleting again changes nothing; input, filter and error state are
    kept. *)
Theorem handleDeleteTodo_exact (st : AppState) (i : string) :
  (∀ t, t ∈ todos (handleDeleteTodo i st) ↔ t ∈ todos st ∧ Todo.id t ≠ i)
  ∧ todos (handleDeleteTodo i st) `sublist_of` todos st
  ∧ (i ∉ ids (handleDeleteTodo i st))
  ∧ handleDeleteTodo i (handleDeleteTodo i st) = handleDeleteTodo i st
  ∧ inputText (handleDeleteTodo i st) = inputText st
  ∧ filter (handleDeleteTodo i st) = filter st
  ∧ error (handleDeleteTodo i st) = error st.
Proof.
  assert (Hmem : ∀ t, t ∈ todos (handleDeleteTodo i st)
                      ↔ t ∈ todos st ∧ Todo.id t ≠ i).
  { intros t. unfold handleDeleteTodo, setTodos; simpl.
    rewrite !list_elem_of_In, filter_In, bool_decide_eq_true. reflexivity. }
  split_and!; try reflexivity.
  - exact Hmem.
  - apply filter_sublist.
  - unfold ids. intros (t & Hid & Ht)%list_elem_of_fmap.
    apply Hmem in Ht as [_ Hne]. by apply Hne.
  - apply appstate_eq; try reflexivity. simpl. apply filter_idempotent.
Qed.

(** X2: [handleDeleteTodo i] for an id that no task has leaves the whole
    state as it is. *)
Theorem handleDeleteTodo_absent (st : AppState) (i : string) :
  (i ∉ ids st) → handleDeleteTodo i st = st.
Proof.
  intros Hi. apply appstate_eq; try reflexivity. simpl.
  apply filter_keep_all, Forall_forall. intros t Ht.
  apply bool_decide_eq_true. intros Heq. apply Hi.
  unfold ids. apply list_elem_of_fmap. exists t. by split.
Qed.

Lemma handleDeleteTodo_absent_witness :
  let st := sampleState [sampleTodo "t1" false [] None] in
  ("t9" ∉ ids st) ∧ handleDeleteTodo "t9" st = st.
Proof.
  intros st.
  assert (H : "t9" ∉ ids st).
  { intros [?|[]%elem_of_nil]%elem_of_cons. discriminate. }
  split; [exact H | exact (handleDeleteTodo_absent st "t9" H)].
Defined.

(** X3: adding a task under an id that the store does not use and deleting
    that id again gives back the task list; in between, the new id is the
    first of the ids and one more item is left. *)
Theorem add_then_delete (st : AppState) (uuid : string) :
  trim (inputText st) ≠ "" →
  (uuid ∉ ids st) →
  ids (handleAddTodo uuid st) = uuid :: ids st
  ∧ itemsLeft (handleAddTodo uuid st) = S (itemsLeft st)
  ∧ todos (handleDeleteTodo uuid (handleAddTodo uuid st)) = todos st.
Proof.
  intros Hne Hfresh. unfold handleAddTodo.
  destruct (decide (trim (inputText st) = "")); [contradiction|].
  split_and!; try reflexivity.
  simpl. destruct (bool_decide_reflect (uuid ≠ uuid)) as [H|_]; [by destruct H|].
  apply filter_keep_all, Forall_forall. intros t Ht.
  apply bool_decide_eq_true. intros Heq. apply Hfresh.
  unfold ids. apply list_elem_of_fmap. exists t. by split.
Qed.

Lemma add_then_delete_witness :
  let st := {| todos := [sampleTodo "t1" true [] None];
               inputText := " Buy milk"; filter := ALL; error := None |} in
  trim (inputText st) ≠ "" ∧ ("u-7" ∉ ids st)
  ∧ todos (handleDeleteTodo "u-7" (handleAddTodo "u-7" st)) = todos st.
Proof.
  intros st.
  assert (Hne : trim (inputText st) ≠ "") by discriminate.
  assert (H : "u-7" ∉ ids st).
  { intros [?|[]%elem_of_nil]%elem_of_cons. discriminate. }
  split_and!; [exact Hne | exact H |].
  exact (proj2 (proj2 (add_then_delete st "u-7" Hne H))).
Defined.

(** ** Expanding a task ([handleExpand]) *)

(** X4: [handleExpand i] flips [isExpanded] of the tasks with id [i] and
    changes nothing else; clicking twice gives back the state. *)
Theorem handleExpand_involutive (st : AppState) (i : string) :
  handleExpand i (handleExpand i st) = st
  ∧ (∀ k t, todos st !! k = Some t →
       ∃ t', todos (handleExpand i st) !! k = Some t'
           ∧ Todo.isExpanded t' =
               (if decide (Todo.id t = i) then negb (Todo.isExpanded t)
                else Todo.isExpanded t)
           ∧ Todo.id t' = Todo.id t ∧ Todo.text t' = Todo.text t
           ∧ Todo.completed t' = Todo.completed t
           ∧ Todo.subtasks t' = Todo.subtasks t
           ∧ Todo.isGenerating t' = Todo.isGenerating t).
Proof.
  split.
  - apply appstate_eq; try reflexivity. simpl.
    apply fmap_involutive. intros [ti tx c e ss g]. simpl.
    destruct (decide (ti = i)) as [E|E]; simpl.
    + destruct (decide (ti = i)); [|contradiction].
      unfold Todo.with_isExpanded; simpl. by rewrite negb_involutive.
    + destruct (decide (ti = i)); [contradiction | reflexivity].
  - intros k t Hk. unfold handleExpand, setTodos; simpl.
    rewrite list_lookup_fmap, Hk. simpl. eexists. split; [reflexivity|].
    by destruct (decide (Todo.id t = i)).
Qed.

(** ** Toggling twice *)

Lemma toggleTodo_twice (i : string) (t : Todo.t) :
  Todo.id t = i → toggleTodo i (toggleTodo i t) = allDone t.
Proof.
  intros Hid. unfold toggleTodo, allDone.
  destruct (decide (Todo.id t = i)); [|contradiction]. simpl.
  destruct (decide (Todo.id t = i)); [|contradiction].
  unfold Todo.with_completed_subtasks. simpl.
  destruct (Todo.completed t); simpl; reflexivity.
Qed.

(** X5: [handleToggleTodo i] is not its own inverse.  After two calls the
    task with id [i] has its [completed] flag back, and every one of its
    subtasks is completed, whatever the subtasks were before. *)
Theorem handleToggleTodo_twice_completes_subtasks
    (st : AppState) (i : string) (k : nat) (t : Todo.t) :
  todos st !! k = Some t →
  Todo.id t = i →
  ∃ t', todos (handleToggleTodo i (handleToggleTodo i st)) !! k = Some t'
      ∧ Todo.completed t' = Todo.completed t
      ∧ Todo.subtasks t' = Subtask.with_completed true <$> Todo.subtasks t
      ∧ Forall (λ s, Subtask.completed s = true) (Todo.subtasks t')
      ∧ Todo.id t' = Todo.id t ∧ Todo.text t' = Todo.text t
      ∧ Todo.isExpanded t' = Todo.isExpanded t
      ∧ Todo.isGenerating t' = Todo.isGenerating t.
Proof.
  intros Hk Hid. exists (allDone t). split.
  - unfold handleToggleTodo, setTodos; simpl.
    rewrite !list_lookup_fmap, Hk. simpl. by rewrite toggleTodo_twice.
  - simpl. split_and!; try reflexivity.
    apply Forall_fmap, Forall_true. intros s. reflexivity.
Qed.

Lemma handleToggleTodo_twice_completes_subtasks_witness :
  let t := sampleTodo "t1" true [sampleSub "s1" false] None in
  let st := sampleState [t] in
  todos st !! 0%nat = Some t ∧ Todo.id t = "t1"
  ∧ ∃ t', todos (handleToggleTodo "t1" (handleToggleTodo "t1" st)) !! 0%nat = Some t'
      ∧ Todo.completed t' = Todo.completed t
      ∧ Todo.subtasks t' = Subtask.with_completed true <$> Todo.subtasks t
      ∧ Forall (λ s, Subtask.completed s = true) (Todo.subtasks t')
      ∧ Todo.id t' = Todo.id t ∧ Todo.text t' = Todo.text t
      ∧ Todo.isExpanded t' = Todo.isExpanded t
      ∧ Todo.isGenerating t' = Todo.isGenerating t.
Proof.
  intros t st. split_and!; [reflexivity | reflexivity |].
  exact (handleToggleTodo_twice_completes_subtasks st "t1" 0 t eq_refl eq_refl).
Defined.

Lemma toggleSubtask_twice (subtaskId : string) (ss : list Subtask.t) :
  toggleSubtask subtaskId <$> (toggleSubtask subtaskId <$> ss) = ss.
Proof.
  apply fmap_involutive. intros [si tx c]. unfold toggleSubtask. simpl.
  destruct (decide (si = subtaskId)) as [E|E]; simpl.
  - destruct (decide (si = subtaskId)); [|contradiction].
    unfold Subtask.with_completed; simpl. by rewrite negb_involutive.
  - destruct (decide (si = subtaskId)); [contradiction | reflexivity].
Qed.

(** X6: two calls of [handleToggleSubtask todoId subtaskId] give the task
    its subtasks back, and leave its [completed] flag recomputed from them:
    (all subtasks completed) and (subtasks non-empty).  The task itself is
    back exactly when its flag agreed with its subtasks. *)
Theorem handleToggleSubtask_twice
    (st : AppState) (todoId subtaskId : string) (k : nat) (t : Todo.t) :
  todos st !! k = Some t →
  Todo.id t = todoId →
  ∃ t', todos (handleToggleSubtask todoId subtaskId
                 (handleToggleSubtask todoId subtaskId st)) !! k = Some t'
      ∧ Todo.subtasks t' = Todo.subtasks t
      ∧ Todo.completed t' =
          forallb Subtask.completed (Todo.subtasks t)
          && (0 <? length (Todo.subtasks t))%nat
      ∧ (t' = t ↔
         Todo.completed t =
           forallb Subtask.completed (Todo.subtasks t)
           && (0 <? length (Todo.subtasks t))%nat).
Proof.
  intros Hk Hid.
  exists (toggleSubtaskIn todoId subtaskId (toggleSubtaskIn todoId subtaskId t)).
  split.
  { unfold handleToggleSubtask, setTodos; simpl.
    by rewrite !list_lookup_fmap, Hk. }
  unfold toggleSubtaskIn.
  destruct (decide (Todo.id t ≠ todoId)); [contradiction|]. simpl.
  destruct (decide (Todo.id t ≠ todoId)); [contradiction|]. simpl.
  rewrite toggleSubtask_twice.
  split_and!; try reflexivity.
  destruct t as [ti tx c e ss g]. unfold Todo.with_completed_subtasks. simpl.
  split; [intros [= H]; by rewrite H at 1 | intros <-; reflexivity].
Qed.

Lemma handleToggleSubtask_twice_witness :
  let t := sampleTodo "t1" true [sampleSub "s1" false] None in
  let st := sampleState [t] in
  todos st !! 0%nat = Some t ∧ Todo.id t = "t1"
  ∧ ∃ t', todos (handleToggleSubtask "t1" "s1"
                   (handleToggleSubtask "t1" "s1" st)) !! 0%nat = Some t'
      ∧ Todo.subtasks t' = Todo.subtasks t
      ∧ Todo.completed t' =
          forallb Subtask.completed (Todo.subtasks t)
          && (0 <? length (Todo.subtasks t))%nat
      ∧ (t' = t ↔
         Todo.completed t =
           forallb Subtask.completed (Todo.subtasks t)
           && (0 <? length (Todo.subtasks t))%nat).
Proof.
  intros t st. split_and!; [reflexivity | reflexivity |].
  exact (handleToggleSubtask_twice st "t1" "s1" 0 t eq_refl eq_refl).
Defined.

Lemma forallb_witness_false {A : Type} (f : A → bool) (l : list A) (x : A) :
  x ∈ l → f x = false → forallb f l = false.
Proof.
  intros Hx Hf. destruct (forallb f l) eqn:E; [|reflexivity].
  rewrite forallb_forall in E. apply list_elem_of_In in Hx.
  rewrite (E x Hx) in Hf. discriminate.
Qed.

(** X7: completing a task with [handleToggleTodo] and then toggling one of
    its subtasks reopens the task: the subtasks with the toggled id are
    open, all the others completed, and the task is not completed. *)
Theorem toggle_subtask_after_complete
    (st : AppState) (i j : string) (k : nat) (t : Todo.t) :
  todos st !! k = Some t →
  Todo.id t = i →
  Todo.completed t = false →
  (∃ s, s ∈ Todo.subtasks t ∧ Subtask.id s = j) →
  ∃ t', todos (handleToggleSubtask i j (handleToggleTodo i st)) !! k = Some t'
      ∧ Todo.completed t' = false
      ∧ Todo.subtasks t' =
          (λ s, Subtask.with_completed (negb (bool_decide (Subtask.id s = j))) s)
            <$> Todo.subtasks t.
Proof.
  intros Hk Hid Hc (s & Hs & Hj).
  exists (toggleSubtaskIn i j (toggleTodo i t)). split.
  { unfold handleToggleSubtask, handleToggleTodo, setTodos; simpl.
    by rewrite !list_lookup_fmap, Hk. }
  assert (Hsub : Todo.subtasks (toggleSubtaskIn i j (toggleTodo i t)) =
            (λ s, Subtask.with_completed (negb (bool_decide (Subtask.id s = j))) s)
              <$> Todo.subtasks t).
  { unfold toggleSubtaskIn, toggleTodo.
    destruct (decide (Todo.id t = i)); [|contradiction]. simpl.
    destruct (decide (Todo.id t ≠ i)); [contradiction|]. simpl.
    rewrite Hc. simpl. rewrite <- list_fmap_compose.
    apply list_fmap_ext. intros _ s' _. unfold toggleSubtask, compose. simpl.
    destruct (decide (Subtask.id s' = j)) as [E|E].
    - by rewrite (bool_decide_eq_true_2 _ E).
    - by rewrite (bool_decide_eq_false_2 _ E). }
  split; [|exact Hsub].
  rewrite toggleSubtaskIn_completed.
  2:{ unfold toggleTodo. by destruct (decide (Todo.id t = i)). }
  rewrite Hsub. apply andb_false_iff. left.
  apply (forallb_witness_false _ _
           (Subtask.with_completed (negb (bool_decide (Subtask.id s = j))) s)).
  - apply list_elem_of_fmap. by exists s.
  - simpl. by rewrite (bool_decide_eq_true_2 _ Hj).
Qed.

Lemma toggle_subtask_after_complete_witness :
  let t := sampleTodo "t1" false [sampleSub "s1" false; sampleSub "s2" true] None in
  let st := sampleState [t] in
  todos st !! 0%nat = Some t ∧ Todo.id t = "t1" ∧ Todo.completed t = false
  ∧ (∃ s, s ∈ Todo.subtasks t ∧ Subtask.id s = "s2")
  ∧ ∃ t', todos (handleToggleSubtask "t1" "s2" (handleToggleTodo "t1" st)) !! 0%nat
          = Some t'
      ∧ Todo.completed t' = false
      ∧ Todo.subtasks t' =
          (λ s, Subtask.with_completed (negb (bool_decide (Subtask.id s = "s2"))) s)
            <$> Todo.subtasks t.
Proof.
  intros t st.
  assert (Hs : ∃ s, s ∈ Todo.subtasks t ∧ Subtask.id s = "s2").
  { exists (sampleSub "s2" true). split; [repeat constructor | reflexivity]. }
  split_and!; [reflexivity | reflexivity | reflexivity | exact Hs |].
  exact (toggle_subtask_after_complete st "t1" "s2" 0 t eq_refl eq_refl eq_refl Hs).
Defined.

(** ** The filtered view and the counters *)

Lemma filter_partition {A : Type} (p : A → bool) (l : list A) :
  List.filter p l ++ List.filter (λ x, negb (p x)) l ≡ₚ l.
Proof.
  induction l as [|x l IH]; simpl; [reflexivity|].
  destruct (p x); simpl.
  - by rewrite IH.
  - rewrite <- Permutation_middle. by rewrite IH.
Qed.

Lemma filter_length_le {A : Type} (p : A → bool) (l : list A) :
  (length (List.filter p l) ≤ length l)%nat.
Proof. apply sublist_length, filter_sublist. Qed.

Lemma filter_length_all {A : Type} (p : A → bool) (l : list A) :
  length (List.filter p l) = length l ↔ Forall (λ x, p x = true) l.
Proof.
  induction l as [|x l IH]; simpl.
  - split; [constructor | reflexivity].
  - pose proof (filter_length_le p l) as Hle.
    rewrite Forall_cons. destruct (p x); simpl.
    + rewrite <- IH. split; [intros [= H]; by split | intros [_ H]; by rewrite H].
    + split; [intros H; lia | intros [H _]; discriminate].
Qed.

Lemma filter_length_none {A : Type} (p : A → bool) (l : list A) :
  length (List.filter p l) = 0%nat ↔ Forall (λ x, p x = false) l.
Proof.
  induction l as [|x l IH]; simpl.
  - split; [constructor | reflexivity].
  - rewrite Forall_cons. destruct (p x); simpl.
    + split; [discriminate | intros [H _]; discriminate].
    + rewrite IH. split; [by split | by intros [_ H]].
Qed.

(** X8: the three views of [filteredTodos].  ALL is the task list; ACTIVE
    holds exactly the tasks that are not completed and COMPLETED exactly the
    completed ones, so no task is in both and together they are a
    rearrangement of the task list; every view keeps the order of the list;
    the "items left" counter is the size of the ACTIVE view. *)
Theorem filteredTodos_partition (st : AppState) :
  filteredTodos (setFilter ALL st) = todos st
  ∧ (∀ t, t ∈ filteredTodos (setFilter ACTIVE st)
          ↔ t ∈ todos st ∧ Todo.completed t = false)
  ∧ (∀ t, t ∈ filteredTodos (setFilter COMPLETED st)
          ↔ t ∈ todos st ∧ Todo.completed t = true)
  ∧ filteredTodos (setFilter COMPLETED st) ++ filteredTodos (setFilter ACTIVE st)
      ≡ₚ todos st
  ∧ (∀ f, filteredTodos (setFilter f st) `sublist_of` todos st)
  ∧ itemsLeft st = length (filteredTodos (setFilter ACTIVE st)).
Proof.
  unfold filteredTodos, itemsLeft; simpl. split_and!.
  - apply filter_keep_all, Forall_true. reflexivity.
  - intros t. by rewrite !list_elem_of_In, filter_In, negb_true_iff.
  - intros t. by rewrite !list_elem_of_In, filter_In.
  - apply (filter_partition Todo.completed).
  - intros f. apply filter_sublist.
  - reflexivity.
Qed.

Lemma existsb_completed_filter (l : list Todo.t) :
  existsb Todo.completed (List.filter (λ t, negb (Todo.completed t)) l) = false.
Proof.
  induction l as [|t l IH]; simpl; [reflexivity|].
  destruct (Todo.completed t) eqn:E; simpl; [exact IH|]. by rewrite E.
Qed.

Lemma existsb_completed_false (l : list Todo.t) :
  existsb Todo.completed l = false →
  Forall (λ t, negb (Todo.completed t) = true) l.
Proof.
  induction l as [|t l IH]; simpl; [constructor|].
  intros [Ht Hl]%orb_false_iff. constructor; [by rewrite Ht | by apply IH].
Qed.

(** X9: after [handleClearCompleted] the footer with the "Clear completed
    tasks" button is no longer rendered, the COMPLETED view is empty, and
    the ACTIVE view and the "items left" counter are what they were;
    clearing again changes nothing, and clearing a list without completed
    tasks (footer not rendered) changes nothing either. *)
Theorem handleClearCompleted_effects (st : AppState) :
  footerRendered (handleClearCompleted st) = false
  ∧ filteredTodos (setFilter COMPLETED (handleClearCompleted st)) = []
  ∧ filteredTodos (setFilter ACTIVE (handleClearCompleted st))
    = filteredTodos (setFilter ACTIVE st)
  ∧ itemsLeft (handleClearCompleted st) = itemsLeft st
  ∧ handleClearCompleted (handleClearCompleted st) = handleClearCompleted st
  ∧ (footerRendered st = false → handleClearCompleted st = st).
Proof.
  unfold footerRendered, filteredTodos, itemsLeft; simpl. split_and!.
  - apply existsb_completed_filter.
  - induction (todos st) as [|t l IH]; simpl; [reflexivity|].
    destruct (Todo.completed t) eqn:E; simpl; [exact IH|]. by rewrite E.
  - apply filter_idempotent.
  - by rewrite filter_idempotent.
  - apply appstate_eq; try reflexivity. simpl. apply filter_idempotent.
  - intros H. apply appstate_eq; try reflexivity. simpl.
    apply filter_keep_all, existsb_completed_false, H.
Qed.

(** ** The progress bar of [TodoItem] *)

(** X10: the two integers behind the progress bar.  [totalItems] is at
    least 1, so the quotient never divides by zero; [completedItems] never
    exceeds [totalItems]; they are equal exactly when the task and all its
    subtasks are completed, and [completedItems] is 0 exactly when neither
    the task nor any subtask is completed. *)
Theorem progress_counts (todo : Todo.t) :
  (1 ≤ totalItems todo)%nat
  ∧ (completedItems todo ≤ totalItems todo)%nat
  ∧ (completedItems todo = totalItems todo ↔
       Todo.completed todo = true
       ∧ Forall (λ s, Subtask.completed s = true) (Todo.subtasks todo))
  ∧ (completedItems todo = 0%nat ↔
       Todo.completed todo = false
       ∧ Forall (λ s, Subtask.completed s = false) (Todo.subtasks todo)).
Proof.
  unfold totalItems, completedItems.
  pose proof (filter_length_le Subtask.completed (Todo.subtasks todo)) as Hle.
  pose proof (filter_length_all Subtask.completed (Todo.subtasks todo)) as Hall.
  pose proof (filter_length_none Subtask.completed (Todo.subtasks todo)) as Hnone.
  destruct (Todo.completed todo); cbn [Nat.add].
  - split_and!; [lia | lia | |].
    + rewrite <- Hall.
      split; [intros H; split; [reflexivity | lia] | intros [_ H]; lia].
    + split; [intros H; exfalso; lia | intros [H _]; discriminate].
  - split_and!; [lia | lia | |].
    + split; [intros H; exfalso; lia | intros [H _]; discriminate].
    + rewrite <- Hnone.
      split; [intros H; split; [reflexivity | exact H] | by intros [_ H]].
Qed.

(** ** The subtasks built from an answer ([handleGenerateSubtasks]) *)

Lemma newSubtasks_text (rand : nat → string) (texts : list string) :
  Subtask.text <$> newSubtasks rand texts = texts.
Proof.
  apply list_eq. intros k. unfold newSubtasks.
  rewrite list_lookup_fmap, list_lookup_imap.
  by destruct (texts !! k).
Qed.

Lemma newSubtasks_open (rand : nat → string) (texts : list string) :
  Forall (λ s, Subtask.completed s = false) (newSubtasks rand texts).
Proof.
  apply Forall_lookup. intros k s. unfold newSubtasks.
  rewrite list_lookup_imap. destruct (texts !! k); simpl; [|discriminate].
  by intros [= <-].
Qed.

(** X11: the subtasks built from the texts of an answer are as many as the
    texts, carry the texts in their order, are all open, and the [k]-th has
    the id of the [k]-th call of [crypto.randomUUID()]; their ids are
    pairwise different when the calls return pairwise different values. *)
Theorem newSubtasks_shape (rand : nat → string) (texts : list string) :
  length (newSubtasks rand texts) = length texts
  ∧ Subtask.text <$> newSubtasks rand texts = texts
  ∧ Forall (λ s, Subtask.completed s = false) (newSubtasks rand texts)
  ∧ (∀ k s, newSubtasks rand texts !! k = Some s → Subtask.id s = rand k)
  ∧ ((∀ a b, rand a = rand b → a = b) →
       NoDup (Subtask.id <$> newSubtasks rand texts)).
Proof.
  split_and!.
  - apply length_imap.
  - apply newSubtasks_text.
  - apply newSubtasks_open.
  - intros k s. unfold newSubtasks. rewrite list_lookup_imap.
    destruct (texts !! k); simpl; [|discriminate]. by intros [= <-].
  - intros Hinj. apply NoDup_alt. intros a b x.
    unfold newSubtasks. rewrite !list_lookup_fmap, !list_lookup_imap.
    destruct (texts !! a); simpl; [|discriminate].
    destruct (texts !! b); simpl; [|discriminate].
    intros [= <-] [= H]. by apply Hinj.
Qed.

(** ** The Break Down button after a settlement *)

(** X12: what a settlement means for the Break Down button of a task that
    is not completed.  After a fulfilled request the button is never
    disabled; it is rendered exactly when the answer had no texts, and the
    subtasks section exactly when it had some.  After a rejected request
    the button is enabled again and rendered as before, so a task without
    subtasks can be retried. *)
Theorem breakDown_after_settlement
    (rand : nat → string) (st : AppState) (i : string) (k : nat) (t : Todo.t)
    (outcome : Settled (list string)) :
  todos st !! k = Some t →
  Todo.id t = i →
  Todo.completed t = false →
  ∃ t', todos (handleGenerateSubtasks_settle rand i outcome st) !! k = Some t'
      ∧ breakDownDisabled t' = false
      ∧ match outcome with
        | Fulfilled texts =>
            breakDownRendered t' = (length texts =? 0)%nat
            ∧ subtasksRendered t' = negb (length texts =? 0)%nat
        | Rejected =>
            breakDownRendered t' = breakDownRendered t
            ∧ (Todo.subtasks t = [] → breakDownRendered t' = true)
        end.
Proof.
  intros Hk Hid Hc.
  destruct outcome as [texts|]; simpl; rewrite list_lookup_fmap, Hk; simpl.
  - destruct (decide (Todo.id t ≠ i)); [contradiction|].
    eexists. split; [reflexivity|].
    unfold breakDownRendered, breakDownDisabled, subtasksRendered. simpl.
    unfold newSubtasks. rewrite length_imap, Hc. simpl.
    split_and!; try reflexivity.
    + apply andb_true_r.
    + by destruct (length texts).
  - destruct (decide (Todo.id t = i)); [|contradiction].
    eexists. split; [reflexivity|].
    unfold breakDownRendered, breakDownDisabled. simpl.
    split_and!; try reflexivity.
    intros ->. by rewrite Hc.
Qed.

Lemma breakDown_after_settlement_witness :
  let t := sampleTodo "t1" false [] (Some true) in
  let st := sampleState [t] in
  todos st !! 0%nat = Some t ∧ Todo.id t = "t1" ∧ Todo.completed t = false
  ∧ ∃ t', todos (handleGenerateSubtasks_settle sampleRand "t1" Rejected st) !! 0%nat
          = Some t'
      ∧ breakDownDisabled t' = false
      ∧ breakDownRendered t' = breakDownRendered t
      ∧ (Todo.subtasks t = [] → breakDownRendered t' = true).
Proof.
  intros t st. split_and!; [reflexivity | reflexivity | reflexivity |].
  exact (breakDown_after_settlement sampleRand st "t1" 0 t Rejected
           eq_refl eq_refl eq_refl).
Defined.

(** X13: the settlement does not look at [completed].  A task that the
    user completes while its request is in flight stays completed when a
    non-empty answer arrives, although every one of its new subtasks is
    open: its progress counts are 1 of 1 + (number of texts). *)
Theorem completed_while_in_flight
    (rand : nat → string) (st : AppState) (i : string) (k : nat) (t : Todo.t)
    (texts : list string) :
  todos st !! k = Some t →
  Todo.id t = i →
  Todo.completed t = false →
  texts ≠ [] →
  ∃ t', todos (handleGenerateSubtasks_settle rand i (Fulfilled texts)
                 (handleToggleTodo i st)) !! k = Some t'
      ∧ Todo.completed t' = true
      ∧ Todo.subtasks t' = newSubtasks rand texts
      ∧ Forall (λ s, Subtask.completed s = false) (Todo.subtasks t')
      ∧ forallb Subtask.completed (Todo.subtasks t') = false
      ∧ completedItems t' = 1%nat
      ∧ totalItems t' = S (length texts).
Proof.
  intros Hk Hid Hc Hne. simpl. rewrite !list_lookup_fmap, Hk. simpl.
  unfold toggleTodo. destruct (decide (Todo.id t = i)); [|contradiction].
  simpl. destruct (decide (Todo.id t ≠ i)); [contradiction|].
  eexists. split; [reflexivity|]. simpl. rewrite Hc. simpl.
  pose proof (newSubtasks_open rand texts) as Hopen.
  split_and!; try reflexivity.
  - exact Hopen.
  - destruct texts as [|x texts]; [contradiction|]. reflexivity.
  - unfold completedItems. simpl.
    by rewrite (proj2 (filter_length_none Subtask.completed _) Hopen).
  - unfold totalItems. simpl. unfold newSubtasks. by rewrite length_imap.
Qed.

Lemma completed_while_in_flight_witness :
  let t := sampleTodo "t1" false [] (Some true) in
  let st := sampleState [t] in
  let texts := ["Book flights"; "Pack bags"] in
  todos st !! 0%nat = Some t ∧ Todo.id t = "t1" ∧ Todo.completed t = false
  ∧ texts ≠ []
  ∧ ∃ t', todos (handleGenerateSubtasks_settle sampleRand "t1" (Fulfilled texts)
                   (handleToggleTodo "t1" st)) !! 0%nat = Some t'
      ∧ Todo.completed t' = true
      ∧ Todo.subtasks t' = newSubtasks sampleRand texts
      ∧ Forall (λ s, Subtask.completed s = false) (Todo.subtasks t')
      ∧ forallb Subtask.completed (Todo.subtasks t') = false
      ∧ completedItems t' = 1%nat
      ∧ totalItems t' = S (length texts).
Proof.
  intros t st texts.
  assert (Hne : texts ≠ []) by discriminate.
  split_and!; [reflexivity | reflexivity | reflexivity | exact Hne |].
  exact (completed_while_in_flight sampleRand st "t1" 0 t texts
           eq_refl eq_refl eq_refl Hne).
Defined.

(** ** Decomposition without an API key *)

(** X14: without an API key the request to the model plays no part: for
    whatever reply and parser, the decomposition of a task gives it exactly
    three open subtasks, "Research", "Draft outline for" and "Review and
    finalize" followed by the text of the task, expands it, ends its
    generating state and leaves the error state alone. *)
Theorem decomposition_without_key
    (JSON_parse : string → ParsedSubtasks) (reply : GenerateContent)
    (rand : nat → string) (st : AppState) (i : string) (k : nat) (t : Todo.t) :
  todos st !! k = Some t →
  Todo.id t = i →
  let outcome := generateSubtasks JSON_parse "" reply (Todo.text t) in
  let st' := handleGenerateSubtasks_settle rand i outcome st in
  outcome ≠ Rejected
  ∧ error st' = error st
  ∧ ∃ t', todos st' !! k = Some t'
        ∧ Subtask.text <$> Todo.subtasks t'
          = [ "Research " ++ Todo.text t;
              "Draft outline for " ++ Todo.text t;
              "Review and finalize " ++ Todo.text t ]
        ∧ Forall (λ s, Subtask.completed s = false) (Todo.subtasks t')
        ∧ Todo.isExpanded t' = true
        ∧ Todo.isGenerating t' = Some false
        ∧ Todo.completed t' = Todo.completed t.
Proof.
  intros Hk Hid outcome st'. subst outcome st'. unfold generateSubtasks.
  destruct (decide ("" = "")) as [_|H]; [|by destruct H].
  split; [discriminate|]. split; [reflexivity|].
  simpl. rewrite list_lookup_fmap, Hk. simpl.
  destruct (decide (Todo.id t ≠ i)); [contradiction|].
  eexists. split; [reflexivity|]. simpl.
  split_and!; try reflexivity. repeat constructor.
Qed.

Lemma decomposition_without_key_witness :
  let t := sampleTodo "t1" false [] (Some true) in
  let st := sampleState [t] in
  todos st !! 0%nat = Some t ∧ Todo.id t = "t1"
  ∧ generateSubtasks sampleParse "" Thrown (Todo.text t) ≠ Rejected.
Proof.
  intros t st. split_and!; [reflexivity | reflexivity |].
  exact (proj1 (decomposition_without_key sampleParse Thrown sampleRand
                  st "t1" 0 t eq_refl eq_refl)).
Defined.

(** ** When the Break Down button fires *)

(** X15: a click on the Break Down button of a task changes nothing exactly
    when the task has subtasks, is completed, or is generating.  Otherwise
    it adds one awaited call carrying the id and the text of the task,
    clears the error state, and marks every task with that id as
    generating. *)
Theorem clickBreakDown_fires_iff (todo : Todo.t) (w : World) :
  (clickBreakDown todo w = w ↔ breakDownInert todo)
  ∧ (¬ breakDownInert todo →
       inflight (clickBreakDown todo w)
         = (inflight w ++ [(Todo.id todo, Todo.text todo)])%list
       ∧ error (app (clickBreakDown todo w)) = None
       ∧ ∀ t, t ∈ todos (app (clickBreakDown todo w)) →
              Todo.id t = Todo.id todo → Todo.isGenerating t = Some true).
Proof.
  unfold clickBreakDown, breakDownInert, breakDownRendered, breakDownDisabled.
  destruct todo as [ti tx c e ss g]. simpl.
  destruct ss as [|s ss]; simpl.
  2:{ split; [split; [intros _; by left | reflexivity]|].
      intros H. exfalso. apply H. by left. }
  destruct c; simpl.
  { split; [split; [intros _; right; by left | reflexivity]|].
    intros H. exfalso. apply H. right. by left. }
  destruct g as [[|]|]; simpl.
  { split; [split; [intros _; right; by right | reflexivity]|].
    intros H. exfalso. apply H. right. by right. }
  all: split;
    [ split;
      [ intros H; apply (f_equal (λ w, length (inflight w))) in H;
        simpl in H; rewrite length_app in H; simpl in H; lia
      | intros [H | [H | H]]; [by destruct H | discriminate | discriminate] ]
    | intros _; split_and!; try reflexivity;
      intros t (t0 & -> & _)%list_elem_of_fmap Hid;
      destruct (decide (Todo.id t0 = ti)); [reflexivity | contradiction] ].
Qed.

(** ** The text of an added task ([handleAddTodo], [trim]) *)








(** A NO-BREAK SPACE is white space: it is trimmed like a blank, an input
    made of it alone is blank, and a submit of such an input adds
    nothing. *)
Example trim_no_break_space :
  let blank := {| todos := []; inputText := nbsp ++ " " ++ nbsp;
                  filter := ALL; error := None |} in
  let padded := {| todos := []; inputText := nbsp ++ "Buy milk" ++ nbsp;
                   filter := ALL; error := None |} in
  trim (inputText blank) = ""
  ∧ addDisabled blank = true
  ∧ handleAddTodo "u-3" blank = blank
  ∧ trim (inputText padded) = "Buy milk"
  ∧ addDisabled padded = false
  ∧ Todo.text <$> todos (handleAddTodo "u-3" padded) = ["Buy milk"].
Proof. repeat split. Qed.




(** ** What no event does to the tasks *)

Lemma idText_fmap (f : Todo.t → Todo.t) (l : list Todo.t) :
  (∀ t, Todo.id (f t) = Todo.id t ∧ Todo.text (f t) = Todo.text t) →
  (λ t, (Todo.id t, Todo.text t)) <$> (f <$> l)
  = (λ t, (Todo.id t, Todo.text t)) <$> l.
Proof.
  intros Hf. rewrite <- list_fmap_compose. apply list_fmap_ext.
  intros _ t _. simpl. by destruct (Hf t) as [-> ->].
Qed.

Lemma settle_idText
    (rand : nat → string) (i : string) (outcome : Settled (list string))
    (st : AppState) :
  idText (handleGenerateSubtasks_settle rand i outcome st) = idText st.
Proof.
  unfold idText. destruct outcome; simpl; apply idText_fmap; intros t.
  - by destruct (decide (Todo.id t ≠ i)).
  - by destruct (decide (Todo.id t = i)).
Qed.

Lemma fire_idText (e : Event) (w : World) :
  match e with
  | Submit uuid =>
      idText (app (fire e w)) = idText (app w)
      ∨ (trim (inputText (app w)) ≠ ""
         ∧ idText (app (fire e w))
           = (uuid, trim (inputText (app w))) :: idText (app w))
  | ClickDelete _ | ClickClearCompleted =>
      idText (app (fire e w)) `sublist_of` idText (app w)
  | _ => idText (app (fire e w)) = idText (app w)
  end.
Proof.
  destruct e as [uuid|s|i|i|todoId subtaskId|i|todo| |f| |k outcome rand];
    unfold idText; simpl; try reflexivity.
  - unfold handleAddTodo.
    destruct (decide (trim (inputText (app w)) = "")); [by left | by right].
  - apply idText_fmap. intros t. unfold toggleTodo.
    by destruct (decide (Todo.id t = i)).
  - apply fmap_sublist, filter_sublist.
  - apply idText_fmap. intros t. unfold toggleSubtaskIn.
    by destruct (decide (Todo.id t ≠ todoId)).
  - apply idText_fmap. intros t. by destruct (decide (Todo.id t = i)).
  - unfold clickBreakDown.
    destruct (breakDownRendered todo && negb (breakDownDisabled todo));
      [|reflexivity].
    simpl. apply idText_fmap. intros t.
    by destruct (decide (Todo.id t = Todo.id todo)).
  - apply fmap_sublist, filter_sublist.
  - unfold settle. destruct (inflight w !! k) as [[i txt]|]; [|reflexivity].
    apply settle_idText.
Qed.

(** X18: no event edits the id or the text of a task, and none reorders the
    tasks.  A submit leaves the list of (id, text) pairs alone or puts the
    pair of the new task in front; deleting and clearing leave a
    subsequence of it; every other event, the settlement of a request
    included, leaves it exactly as it was. *)
Theorem events_keep_tasks (e : Event) (w : World) :
  match e with
  | Submit uuid =>
      idText (app (fire e w)) = idText (app w)
      ∨ (trim (inputText (app w)) ≠ ""
         ∧ idText (app (fire e w))
           = (uuid, trim (inputText (app w))) :: idText (app w))
  | ClickDelete _ | ClickClearCompleted =>
      idText (app (fire e w)) `sublist_of` idText (app w)
  | _ => idText (app (fire e w)) = idText (app w)
  end.
Proof. apply fire_idText. Qed.

Lemma ids_idText (st : AppState) : ids st = (idText st).*1.
Proof. unfold ids, idText. by rewrite <- list_fmap_compose. Qed.

(** X19: the ids of the store stay pairwise different under every event,
    provided a submit brings an id that the store does not use. *)
Theorem ids_stay_distinct (e : Event) (w : World) :
  NoDup (ids (app w)) →
  (∀ uuid, e = Submit uuid → uuid ∉ ids (app w)) →
  NoDup (ids (app (fire e w))).
Proof.
  intros Hnd Hfresh. pose proof (fire_idText e w) as H.
  rewrite !ids_idText in *.
  destruct e as [uuid|s|i|i|todoId subtaskId|i|todo| |f| |k outcome rand];
    try (by rewrite H);
    try (eapply sublist_NoDup; [exact Hnd | by apply fmap_sublist]).
  destruct H as [H | [_ H]]; rewrite H; [exact Hnd|].
  simpl. apply NoDup_cons. split; [|exact Hnd].
  specialize (Hfresh uuid eq_refl). try rewrite ids_idText in Hfresh. exact Hfresh.
Qed.

Lemma ids_stay_distinct_witness :
  let w := {| app := {| todos := [sampleTodo "t1" false [] None];
                        inputText := "x"; filter := ALL; error := None |};
              inflight := [] |} in
  NoDup (ids (app w))
  ∧ (∀ uuid, Submit "u-1" = Submit uuid → uuid ∉ ids (app w))
  ∧ NoDup (ids (app (fire (Submit "u-1") w))).
Proof.
  intros w.
  assert (Hnd : NoDup (ids (app w))).
  { apply NoDup_singleton. }
  assert (Hf : ∀ uuid, Submit "u-1" = Submit uuid → uuid ∉ ids (app w)).
  { intros uuid [= <-] [?|[]%elem_of_nil]%elem_of_cons. discriminate. }
  split_and!; [exact Hnd | exact Hf |].
  exact (ids_stay_distinct (Submit "u-1") w Hnd Hf).
Defined.

Lemma text_nonempty_idText (st : AppState) :
  Forall (λ t, Todo.text t ≠ "") (todos st)
  ↔ Forall (λ p, p.2 ≠ "") (idText st).
Proof. unfold idText. by rewrite Forall_fmap. Qed.

(** X20: no task ever has an empty text.  If the tasks of the first state
    of a run have non-empty texts, so have the tasks of every state the run
    reaches. *)
Theorem task_text_never_empty (w0 w : World) :
  Forall (λ t, Todo.text t ≠ "") (todos (app w0)) →
  reachable w0 w →
  Forall (λ t, Todo.text t ≠ "") (todos (app w)).
Proof.
  intros H0. induction 1 as [|w e _ IH _]; [exact H0|].
  apply text_nonempty_idText. apply text_nonempty_idText in IH.
  pose proof (fire_idText e w) as H.
  destruct e as [uuid|s|i|i|todoId subtaskId|i|todo| |f| |k outcome rand];
    try (by rewrite H);
    try (apply Forall_forall; intros p Hp;
         rewrite Forall_forall in IH; apply IH;
         eapply sublist_subseteq; [exact H | exact Hp]).
  destruct H as [H | [Hne H]]; rewrite H; [exact IH|].
  by constructor.
Qed.

Lemma task_text_never_empty_witness :
  let w0 := {| app := {| todos := [sampleTodo "t1" false [] None];
                         inputText := " Buy milk "; filter := ALL;
                         error := None |};
               inflight := [] |} in
  let w1 := fire (ClickToggle "t1") (fire (Submit "u-1") w0) in
  Forall (λ t, Todo.text t ≠ "") (todos (app w0))
  ∧ reachable w0 w1
  ∧ Forall (λ t, Todo.text t ≠ "") (todos (app w1)).
Proof.
  intros w0 w1.
  assert (H0 : Forall (λ t, Todo.text t ≠ "") (todos (app w0))).
  { repeat constructor. discriminate. }
  assert (Hr : reachable w0 w1).
  { apply reach_step; [apply reach_step; [apply reach_init|]|].
    - simpl. apply not_elem_of_nil.
    - exact I. }
  split_and!; [exact H0 | exact Hr |].
  exact (task_text_never_empty w0 w1 H0 Hr).
Defined.

(** ** The generating mark and the awaited calls *)

Lemma elem_of_delete_ne {A : Type} (l : list A) (k : nat) (x y : A) :
  x ∈ l → l !! k = Some y → x ≠ y → x ∈ delete k l.
Proof.
  intros Hx Hk Hne. rewrite delete_take_drop.
  rewrite <- (take_drop_middle l k y Hk) in Hx.
  apply elem_of_app in Hx as [Hx | Hx]; apply elem_of_app; [by left|].
  apply elem_of_cons in Hx as [-> | Hx]; [contradiction | by right].
Qed.

Lemma marked_inflight_keeps (w : World) (f : AppState → AppState) :
  keeps_marks (todos (app w)) (todos (f (app w))) →
  marked_inflight w → marked_inflight (onApp f w).
Proof.
  intros Hk Hm t' Ht' Hg. simpl in *.
  destruct (Hk t' Ht') as (t & Ht & Hid & Hgt).
  rewrite Hid. apply (Hm t Ht). congruence.
Qed.

Lemma fire_marked_inflight (e : Event) (w : World) :
  marked_inflight w → marked_inflight (fire e w).
Proof.
  intros Hm.
  destruct e as [uuid|s|i|i|todoId subtaskId|i|todo| |f| |k outcome rand];
    simpl.
  - (* Submit *)
    intros t' Ht' Hg. simpl in *. unfold handleAddTodo in Ht'.
    destruct (decide (trim (inputText (app w)) = "")); [by apply Hm|].
    simpl in Ht'. apply elem_of_cons in Ht' as [-> | Ht']; [discriminate|].
    by apply Hm.
  - apply marked_inflight_keeps; [|exact Hm]. intros t' Ht'. by exists t'.
  - apply marked_inflight_keeps; [|exact Hm].
    apply keeps_marks_fmap. intros t. unfold toggleTodo.
    by destruct (decide (Todo.id t = i)).
  - apply marked_inflight_keeps; [|exact Hm]. apply keeps_marks_filter.
  - apply marked_inflight_keeps; [|exact Hm].
    apply keeps_marks_fmap. intros t. unfold toggleSubtaskIn.
    by destruct (decide (Todo.id t ≠ todoId)).
  - apply marked_inflight_keeps; [|exact Hm].
    apply keeps_marks_fmap. intros t. by destruct (decide (Todo.id t = i)).
  - (* ClickBreakDown *)
    unfold clickBreakDown.
    destruct (breakDownRendered todo && negb (breakDownDisabled todo));
      [|exact Hm].
    intros t' Ht' Hg. simpl in *. rewrite fmap_app. apply elem_of_app.
    apply list_elem_of_fmap in Ht' as (t & -> & Ht).
    destruct (decide (Todo.id t = Todo.id todo)) as [E|E].
    + right. simpl. rewrite E. apply list_elem_of_singleton. reflexivity.
    + left. by apply Hm.
  - apply marked_inflight_keeps; [|exact Hm]. apply keeps_marks_filter.
  - apply marked_inflight_keeps; [|exact Hm]. intros t' Ht'. by exists t'.
  - apply marked_inflight_keeps; [|exact Hm]. intros t' Ht'. by exists t'.
  - (* Settles *)
    unfold settle. destruct (inflight w !! k) as [[i txt]|] eqn:Hk; [|exact Hm].
    intros t' Ht' Hg. simpl in *. rewrite list_fmap_delete.
    assert (Hki : (inflight w).*1 !! k = Some i)
      by (by rewrite list_lookup_fmap, Hk).
    destruct outcome; simpl in Ht';
      apply list_elem_of_fmap in Ht' as (t & -> & Ht).
    + destruct (decide (Todo.id t ≠ i)) as [E|E]; [|discriminate].
      apply (elem_of_delete_ne _ _ _ i); [by apply Hm | exact Hki | exact E].
    + destruct (decide (Todo.id t = i)) as [E|E]; [discriminate|].
      apply (elem_of_delete_ne _ _ _ i); [by apply Hm | exact Hki | exact E].
Qed.

(** X21: in a run that starts with no request in flight and no task marked
    as generating, a task of the store is marked as generating exactly
    while a request for its id is awaited; when nothing is awaited, no task
    is marked. *)
Theorem generating_iff_in_flight (w0 w : World) :
  inflight w0 = [] →
  Forall (λ t, Todo.isGenerating t ≠ Some true) (todos (app w0)) →
  reachable w0 w →
  (∀ t, t ∈ todos (app w) →
        (Todo.isGenerating t = Some true ↔ Todo.id t ∈ (fst <$> inflight w)))
  ∧ (inflight w = [] →
       Forall (λ t, breakDownDisabled t = false) (todos (app w))).
Proof.
  intros H0 Hclean Hr.
  assert (Hmi : marked_inflight w).
  { clear H0. induction Hr as [|w e _ IH _].
    - intros t Ht Hg. rewrite Forall_forall in Hclean.
      by destruct (Hclean t Ht).
    - by apply fire_marked_inflight. }
  destruct (reachable_invariant w0 w H0 Hr) as [_ Him].
  assert (Hiff : ∀ t, t ∈ todos (app w) →
            (Todo.isGenerating t = Some true ↔ Todo.id t ∈ (fst <$> inflight w))).
  { intros t Ht. split; [by apply Hmi | intros Hin; by apply (Him _ t Hin Ht)]. }
  split; [exact Hiff|].
  intros Hnone. apply Forall_forall. intros t Ht.
  unfold breakDownDisabled.
  destruct (Todo.isGenerating t) as [[|]|] eqn:Hg; try reflexivity.
  apply (Hiff t Ht) in Hg. rewrite Hnone in Hg. by apply elem_of_nil in Hg.
Qed.

Lemma generating_iff_in_flight_witness :
  let t := sampleTodo "t1" false [] None in
  let w0 := {| app := sampleState [t]; inflight := [] |} in
  let w2 := fire (Settles 0 Rejected sampleRand) (fire (ClickBreakDown t) w0) in
  inflight w0 = []
  ∧ Forall (λ t, Todo.isGenerating t ≠ Some true) (todos (app w0))
  ∧ reachable w0 w2
  ∧ (inflight w2 = [] →
       Forall (λ t, breakDownDisabled t = false) (todos (app w2))).
Proof.
  intros t w0 w2.
  assert (Hclean : Forall (λ t, Todo.isGenerating t ≠ Some true) (todos (app w0))).
  { repeat constructor. discriminate. }
  assert (Hr : reachable w0 w2).
  { apply reach_step; [apply reach_step; [apply reach_init|]|].
    - simpl. left.
    - simpl. lia. }
  split_and!; [reflexivity | exact Hclean | exact Hr |].
  exact (proj2 (generating_iff_in_flight w0 w2 eq_refl Hclean Hr)).
Defined.

(** ** The counter under a task toggle *)

Lemma split_unique_id (l : list Todo.t) (k : nat) (t : Todo.t) :
  NoDup (Todo.id <$> l) → l !! k = Some t →
  l = (take k l ++ t :: drop (S k) l)%list
  ∧ Forall (λ t0, Todo.id t0 ≠ Todo.id t) (take k l)
  ∧ Forall (λ t0, Todo.id t0 ≠ Todo.id t) (drop (S k) l).
Proof.
  intros Hnd Hk. pose proof (take_drop_middle l k t Hk) as Hsplit.
  split; [by symmetry|].
  rewrite <- Hsplit in Hnd. rewrite fmap_app, fmap_cons in Hnd.
  apply NoDup_app in Hnd as (_ & Hdisj & Htl).
  apply NoDup_cons in Htl as [Hnot _].
  split; apply Forall_forall; intros t0 Ht0 Heq.
  - apply (Hdisj (Todo.id t0)); [apply list_elem_of_fmap; by exists t0|].
    rewrite Heq. left.
  - apply Hnot. rewrite <- Heq. apply list_elem_of_fmap. by exists t0.
Qed.

(** X22: when the ids of the store are pairwise different,
    [handleToggleTodo] moves the "items left" counter by exactly one: up
    when the task was completed, down when it was not. *)
Theorem handleToggleTodo_itemsLeft
    (st : AppState) (i : string) (k : nat) (t : Todo.t) :
  NoDup (ids st) →
  todos st !! k = Some t →
  Todo.id t = i →
  if Todo.completed t
  then itemsLeft (handleToggleTodo i st) = S (itemsLeft st)
  else S (itemsLeft (handleToggleTodo i st)) = itemsLeft st.
Proof.
  intros Hnd Hk Hid.
  destruct (split_unique_id (todos st) k t Hnd Hk) as (Hsplit & Hl & Hr).
  rewrite Hid in Hl, Hr.
  unfold itemsLeft, handleToggleTodo, setTodos; simpl.
  set (l1 := take k (todos st)) in *. set (l2 := drop (S k) (todos st)) in *.
  clearbody l1 l2. rewrite Hsplit. rewrite fmap_app, fmap_cons.
  rewrite (toggleTodo_other _ _ Hl), (toggleTodo_other _ _ Hr).
  rewrite !List.filter_app, !length_app. simpl.
  assert (Hc : Todo.completed (toggleTodo i t) = negb (Todo.completed t)).
  { unfold toggleTodo. by destruct (decide (Todo.id t = i)). }
  rewrite Hc. destruct (Todo.completed t); simpl; lia.
Qed.

Lemma handleToggleTodo_itemsLeft_witness :
  let t := sampleTodo "t2" false [] None in
  let st := sampleState [sampleTodo "t1" false [] None; t] in
  NoDup (ids st) ∧ todos st !! 1%nat = Some t ∧ Todo.id t = "t2"
  ∧ S (itemsLeft (handleToggleTodo "t2" st)) = itemsLeft st.
Proof.
  intros t st.
  assert (Hnd : NoDup (ids st)).
  { apply NoDup_cons. split; [|apply NoDup_singleton].
    intros [?|[]%elem_of_nil]%elem_of_cons. discriminate. }
  split_and!; [exact Hnd | reflexivity | reflexivity |].
  exact (handleToggleTodo_itemsLeft st "t2" 1 t Hnd eq_refl eq_refl).
Defined.

(** ** Tasks that an action does not name *)

(** X23: the handlers that take a task id leave every task with another id
    exactly as it was, in its place: [handleToggleTodo],
    [handleToggleSubtask], [handleExpand] and the settlement of a request;
    none of them changes the number of tasks. *)
Theorem other_tasks_untouched
    (st : AppState) (i j : string) (rand : nat → string)
    (outcome : Settled (list string)) (k : nat) (t : Todo.t) :
  todos st !! k = Some t →
  Todo.id t ≠ i →
  todos (handleToggleTodo i st) !! k = Some t
  ∧ todos (handleToggleSubtask i j st) !! k = Some t
  ∧ todos (handleExpand i st) !! k = Some t
  ∧ todos (handleGenerateSubtasks_settle rand i outcome st) !! k = Some t
  ∧ length (todos (handleToggleTodo i st)) = length (todos st)
  ∧ length (todos (handleToggleSubtask i j st)) = length (todos st)
  ∧ length (todos (handleExpand i st)) = length (todos st)
  ∧ length (todos (handleGenerateSubtasks_settle rand i outcome st))
    = length (todos st).
Proof.
  intros Hk Hne.
  split_and!; try (destruct outcome; simpl; apply length_fmap).
  - simpl. rewrite list_lookup_fmap, Hk. simpl. unfold toggleTodo.
    by destruct (decide (Todo.id t = i)).
  - simpl. rewrite list_lookup_fmap, Hk. simpl. unfold toggleSubtaskIn.
    by destruct (decide (Todo.id t ≠ i)).
  - simpl. rewrite list_lookup_fmap, Hk. simpl.
    by destruct (decide (Todo.id t = i)).
  - destruct outcome; simpl; rewrite list_lookup_fmap, Hk; simpl.
    + by destruct (decide (Todo.id t ≠ i)).
    + by destruct (decide (Todo.id t = i)).
Qed.

Lemma other_tasks_untouched_witness :
  let t := sampleTodo "t2" true [sampleSub "s1" false] (Some true) in
  let st := sampleState [sampleTodo "t1" false [] None; t] in
  todos st !! 1%nat = Some t ∧ Todo.id t ≠ "t1"
  ∧ todos (handleToggleTodo "t1" st) !! 1%nat = Some t.
Proof.
  intros t st.
  assert (Hne : Todo.id t ≠ "t1") by discriminate.
  split_and!; [reflexivity | exact Hne |].
  exact (proj1 (other_tasks_untouched st "t1" "s1" sampleRand Rejected 1 t
                  eq_refl Hne)).
Defined.

(** ** A whole request *)

(** X24: a request that is issued and settles next leaves the list of
    awaited calls as it was, no task of the requested id marked as
    generating, and the ids and texts of the tasks untouched; the error
    state is cleared by a fulfilled request and holds the failure message
    after a rejected one. *)
Theorem request_cycle
    (rand : nat → string) (i text : string) (outcome : Settled (list string))
    (w : World) :
  let w' := settle rand (length (inflight w)) outcome
              (handleGenerateSubtasks_begin i text w) in
  inflight w' = inflight w
  ∧ (∀ t, t ∈ todos (app w') → Todo.id t = i →
          Todo.isGenerating t = Some false)
  ∧ idText (app w') = idText (app w)
  ∧ error (app w') = match outcome with
                     | Fulfilled _ => None
                     | Rejected => Some failedMessage
                     end.
Proof.
  intros w'. subst w'. unfold settle. simpl.
  rewrite list_lookup_middle by reflexivity.
  simpl. split_and!.
  - rewrite delete_middle. apply app_nil_r.
  - intros t Ht Hid. destruct outcome; simpl in Ht;
      apply list_elem_of_fmap in Ht as (t0 & -> & _).
    + destruct (decide (Todo.id t0 ≠ i)); [contradiction | reflexivity].
    + destruct (decide (Todo.id t0 = i)); [reflexivity | contradiction].
  - rewrite settle_idText. unfold idText. simpl. apply idText_fmap.
    intros t. by destruct (decide (Todo.id t = i)).
  - by destruct outcome.
Qed.

(** ** Where a non-empty answer comes from *)

(** X25: with an API key set, [generateSubtasks] fulfills with a non-empty
    list only when the response carries a non-empty text that parses to an
    array, and the list is that array. *)
Theorem generateSubtasks_nonempty_from_array
    (JSON_parse : string → ParsedSubtasks) (apiKey taskText : string)
    (reply : GenerateContent) (texts : list string) :
  apiKey ≠ "" →
  generateSubtasks JSON_parse apiKey reply taskText = Fulfilled texts →
  texts ≠ [] →
  ∃ jsonText, reply = Response (Some jsonText) ∧ jsonText ≠ ""
            ∧ JSON_parse jsonText = ArrayOf texts.
Proof.
  intros Hkey Hout Hne. unfold generateSubtasks in Hout.
  destruct (decide (apiKey = "")); [contradiction|].
  destruct reply as [|[j|]]; try discriminate.
  - destruct (decide (j = "")) as [E|E]; [by injection Hout as <-|].
    destruct (JSON_parse j) eqn:Hp; try discriminate.
    + by injection Hout as <-.
    + injection Hout as ->. by exists j.
  - by injection Hout as <-.
Qed.

Lemma generateSubtasks_nonempty_from_array_witness :
  let reply := Response (Some ("[" ++ quoted "Book flights" ++ "]")) in
  "key" ≠ ""
  ∧ generateSubtasks sampleParse "key" reply "Plan trip" = Fulfilled ["Book flights"]
  ∧ ["Book flights"] ≠ []
  ∧ ∃ jsonText, reply = Response (Some jsonText) ∧ jsonText ≠ ""
              ∧ sampleParse jsonText = ArrayOf ["Book flights"].
Proof.
  intros reply.
  assert (Hkey : "key" ≠ "") by discriminate.
  assert (Hne : ["Book flights"] ≠ []) by discriminate.
  assert (Hout : generateSubtasks sampleParse "key" reply "Plan trip"
                 = Fulfilled ["Book flights"]) by reflexivity.
  split_and!; [exact Hkey | exact Hout | exact Hne |].
  exact (generateSubtasks_nonempty_from_array sampleParse "key" "Plan trip"
           reply ["Book flights"] Hkey Hout Hne).
Defined.
